(** * go-crawler: a shallow embedding of [main.go] and its properties

    The repository holds one program, [main.go], in two revisions.  Both are
    embedded here: the earlier one in [Module V1] (no [-depth] flag, depth
    test against [maxDepth + 1]) and the later one in [Module V2] (the one the
    README documents).  What the two revisions share verbatim ([Link],
    [Link.Valid], [NewLink], [HttpGetError], [getUrl]) is embedded once.

    Modelling choices.
    - Go [string] is a byte string: [String.string].
    - Go [int] is taken to be 64 bits wide; it is a [Z] and every addition or
      subtraction the program performs is wrapped by [wrap].
    - [map[string]bool] is a [gmap string bool]; a missing key reads [false].
    - The tokenizer of [golang.org/x/net/html] and [net/http] are external:
      a response body is the list of tokens the tokenizer yields for it, and
      the web is a function from a URL to the outcome of [http.Get].
    - Logging does not influence control flow; the calls are kept as
      structured entries (level, format, arguments) so that no formatting
      verb other than [%s] and [%d] has to be interpreted.
    - Goroutines, the unbuffered channel [frontier] and the buffered channel
      [requestTokens] are modelled by an interleaving step function driven
      by an explicit scheduler choice.
    - [main], [initVars], [writeToFile], [writeLinksToCsv] and [Link.String]
      (used only to format log output) are command-line and file handling
      and are not embedded. *)

From Stdlib Require Import ZArith String Ascii List Bool Lia DecimalString.
From stdpp Require Import gmap strings list.
Import ListNotations.
Open Scope Z_scope.

(** ** Go's [int] *)

Definition wrap (z : Z) : Z := (z + 2 ^ 63) mod 2 ^ 64 - 2 ^ 63.

Definition maxInt : Z := 2 ^ 63 - 1.

(** ** The part of package [strings] (and [fmt]) the program calls *)

Module strings.

Definition bytes (codes : list nat) : list ascii := map ascii_of_nat codes.

Fixpoint HasPrefixB (s prefix : list ascii) : bool :=
  match prefix, s with
  | [], _ => true
  | _ :: _, [] => false
  | p :: prefix', c :: s' => Ascii.eqb p c && HasPrefixB s' prefix'
  end.

Fixpoint ContainsB (s substr : list ascii) : bool :=
  HasPrefixB s substr ||
  match s with
  | [] => false
  | _ :: s' => ContainsB s' substr
  end.

(** [strings.Contains(s, substr)]: [substr] occurs in [s]. *)
Definition Contains (s substr : string) : bool :=
  ContainsB (list_ascii_of_string s) (list_ascii_of_string substr).

(** The UTF-8 encodings of the code points for which [unicode.IsSpace]
    holds: TAB, LF, VT, FF, CR, SPACE, U+0085, U+00A0, U+1680,
    U+2000..U+200A, U+2028, U+2029, U+202F, U+205F, U+3000. *)
Definition spaceRunes : list (list ascii) :=
  map bytes
    [ [9]; [10]; [11]; [12]; [13]; [32];
      [194; 133]; [194; 160];
      [225; 154; 128];
      [226; 128; 128]; [226; 128; 129]; [226; 128; 130]; [226; 128; 131];
      [226; 128; 132]; [226; 128; 133]; [226; 128; 134]; [226; 128; 135];
      [226; 128; 136]; [226; 128; 137]; [226; 128; 138];
      [226; 128; 168]; [226; 128; 169]; [226; 128; 175];
      [226; 129; 159];
      [227; 128; 128] ]%nat.

(** Strip one leading pattern of [pats], if [s] starts with one. *)
Fixpoint stripOne (pats : list (list ascii)) (s : list ascii) : option (list ascii) :=
  match pats with
  | [] => None
  | p :: pats' =>
      if HasPrefixB s p then Some (skipn (List.length p) s) else stripOne pats' s
  end.

Fixpoint trimLeft (fuel : nat) (pats : list (list ascii)) (s : list ascii) : list ascii :=
  match fuel with
  | O => s
  | S fuel' =>
      match stripOne pats s with
      | Some s' => trimLeft fuel' pats s'
      | None => s
      end
  end.

(** [strings.TrimSpace]: all leading and trailing white space removed.  The
    trailing side is trimmed on the reversed bytes with reversed patterns,
    which is what decoding the last rune amounts to for these encodings. *)
Definition TrimSpace (s : string) : string :=
  let b := list_ascii_of_string s in
  let l := trimLeft (List.length b) spaceRunes b in
  let r := trimLeft (List.length l) (map (@rev ascii) spaceRunes) (rev l) in
  string_of_list_ascii (rev r).

Definition isASCII (c : ascii) : bool := (nat_of_ascii c <? 128)%nat.

Definition isUpper (c : ascii) : bool :=
  ((65 <=? nat_of_ascii c) && (nat_of_ascii c <=? 90))%nat.

Definition lowerByte (c : ascii) : ascii :=
  if isUpper c then ascii_of_nat (nat_of_ascii c + 32) else c.

Section ToLower.

(** [strings.ToLower] maps the bytes ['A'..'Z'] when the string is ASCII
    only, and otherwise returns [strings.Map(unicode.ToLower, s)], which needs
    the Unicode case tables: that second path is a parameter. *)
Variable unicodeLower : string -> string.

Definition ToLower (s : string) : string :=
  let b := list_ascii_of_string s in
  if forallb isASCII b then
    if existsb isUpper b then string_of_list_ascii (map lowerByte b) else s
  else unicodeLower s.

End ToLower.

(** [fmt]'s [%d] for an [int]. *)
Definition fmtInt (z : Z) : string := NilZero.string_of_int (Z.to_int z).

End strings.

(** ** Data model shared by both revisions *)

Record Link := mkLink {
  url : string;
  text : string;  (* tag where href was found *)
  depth : Z
}.

(** [html.Token] of [golang.org/x/net/html]. *)
Inductive TokenType :=
  | ErrorToken | TextToken | StartTagToken | EndTagToken
  | SelfClosingTagToken | CommentToken | DoctypeToken.

Record Attribute := mkAttr { Namespace : string; Key : string; Val : string }.

(** [atom.Atom] is an integer code; only equality with [atom.A] is used. *)
Definition Atom := N.
Definition atom_A : Atom := 1%N.
Definition atom_Href_String : string := "href".

Record Token := mkToken {
  TokType : TokenType;  (* field [Type] *)
  DataAtom : Atom;
  Data : string;
  Attr : list Attribute
}.

(** [http.Response], reduced to the two parts the program reads; [Body] is
    the token stream [html.NewTokenizer(resp.Body)] produces. *)
Record Response := mkResponse { StatusCode : Z; Body : list Token }.

(** API-specific Errors *)
Record HttpGetError := mkHttpGetError { original : string }.

(** Go's [error] interface, with its two implementations in this program:
    what [http.Get] reports, and [HttpGetError]. *)
Inductive error :=
  | TransportError (msg : string)
  | ApiError (e : HttpGetError).

Definition Error (e : error) : string :=
  match e with
  | TransportError msg => msg
  | ApiError e => original e
  end.

(** Calls to the [loglevel] package. *)
Inductive Level := Debug | Info | Warn.

Inductive LogArg :=
  | AStr (s : string)
  | AInt (z : Z)
  | ALink (l : Link)
  | ALinks (ls : list Link)
  | AErr (e : error).

Inductive LogEntry :=
  | Logf (lv : Level) (format : string) (args : list LogArg)
  | Logv (lv : Level) (args : list LogArg).

Section Shared.

Variable unicodeLower : string -> string.

(** [func (self Link) Valid() bool] *)
Definition Valid (self : Link) : bool :=
  if (String.length (text self) =? 0)%nat then false
  else if (String.length (url self) =? 0)%nat
          || strings.Contains (strings.ToLower unicodeLower (url self)) "javascript"
  then false
  else true.

(** [func NewLink(tag html.Token, text string, depth int) Link] *)
Definition NewLink (tag : Token) (text : string) (depth : Z) : Link :=
  fold_left
    (fun link attr =>
       if String.eqb (Key attr) atom_Href_String
       then match link with
            | mkLink _ t d => mkLink (strings.TrimSpace (Val attr)) t d
            end
       else link)
    (Attr tag)
    (mkLink "" (strings.TrimSpace text) depth).

(** [http.Get]: the web.  On failure the response is [nil]. *)
Variable http_Get : string -> Response + error.

(** [func getUrl(url string) (resp *http.Response, err error)], with the
    entries it logs.  In the status branch the [HttpGetError] is built and
    logged, and the bare [return] hands back the named results as they are:
    [resp] from [http.Get] and [err], which is still [nil]. *)
Definition getUrl (url : string) : (option Response * option error) * list LogEntry :=
  let l0 := [Logf Debug "Downloading %s" [AStr url]] in
  match http_Get url with
  | inr err => ((None, Some err), l0 ++ [Logf Debug "Error: %s" [AErr err]])
  | inl resp =>
      if StatusCode resp >? 299 then
        let errStr := ("Error (" ++ strings.fmtInt (StatusCode resp) ++ "): " ++ url)%string in
        ((Some resp, None), l0 ++ [Logv Debug [AErr (ApiError (mkHttpGetError errStr))]])
      else ((Some resp, None), l0)
  end.

End Shared.

(** Following the spec's words, "[s] contains the case-insensitive substring
    [sub]": some substring of [s] is [sub] once its letters are lowered. *)
Definition containsFold (s sub : string) : Prop :=
  exists pre w post : list ascii,
    list_ascii_of_string s = pre ++ w ++ post /\
    map strings.lowerByte w = list_ascii_of_string sub.

(** ** The concurrent skeleton shared by both revisions

    A worker goroutine is at one of its blocking operations; the locals it
    still needs are the constructor's arguments. *)
Inductive Goroutine :=
  | GFetch (link : Link)                      (* at [getUrl(link.url)] *)
  | GAcquire (link : Link) (resp : Response)  (* at [requestTokens <- struct{}{}] *)
  | GExtract (link : Link) (resp : Response)  (* in [ExtractLinks], a token held *)
  | GRelease (newLinks : list Link)           (* at [<-requestTokens] *)
  | GSend (batch : list Link)                 (* at [frontier <- batch] *)
  | GExit.                                    (* returned *)

(** The operation a goroutine performs when it moves on. *)
Inductive Op :=
  | OpGetUrl (u : string)
  | OpAcquire
  | OpExtract
  | OpRelease
  | OpSend (batch : list Link)
  | OpPanic.

(** Where the [crawler] function itself stands. *)
Inductive MainPC :=
  | LoopHead                        (* at [n > 0], then [<-frontier] *)
  | InBatch (links : list Link)     (* in [for _, link := range links], these are left *)
  | Returned.

Record State := mkState {
  n : Z;                          (* number of pending sends *)
  visited : gmap string bool;
  res : list Link;
  pc : MainPC;
  goroutines : list Goroutine;    (* every goroutine started so far, by index *)
  requestTokens : nat;            (* elements buffered in [requestTokens] *)
  logged : list LogEntry;
  panicked : bool                 (* an unrecovered panic ended the process *)
}.

(** Capacity of [requestTokens]: [make(chan struct{}, 10)]. *)
Definition tokenCap : nat := 10.

(** The scheduler's decision. *)
Inductive Choice :=
  | Main                 (* [crawler] runs up to its next receive *)
  | Receive (g : nat)    (* goroutine [g] sends on [frontier], [crawler] receives *)
  | Go (g : nat).        (* goroutine [g] performs its next operation *)

(** The seed goroutine's [initialLinks]. *)
Definition initialLinks (urls : list string) : list Link :=
  fold_left
    (fun initialLinks u => initialLinks ++ [mkLink (strings.TrimSpace u) u 0])
    urls [].

(** State of [crawler(urls, maxDepth)] once the seed goroutine is started and
    the loop is about to test [n > 0]. *)
Definition init (urls : list string) : State :=
  mkState (Z.of_nat (List.length urls)) ∅ [] LoopHead
          [GSend (initialLinks urls)] 0 [] false.

Definition isVisited (v : gmap string bool) (u : string) : bool :=
  default false (v !! u).

Definition setGoroutine (s : State) (g : nat) (st : Goroutine) (lg : list LogEntry)
    (tokens : nat) : State :=
  mkState (n s) (visited s) (res s) (pc s) (<[g := st]> (goroutines s)) tokens
          (logged s ++ lg) (panicked s).

Definition crash (s : State) (lg : list LogEntry) : State :=
  mkState (n s) (visited s) (res s) (pc s) (goroutines s) (requestTokens s)
          (logged s ++ lg) true.

(** The link [crawler] takes from the batch when it makes decision [c] in
    [s]: the element [for _, link := range links] is at. *)
Definition ranged (c : Choice) (s : State) : list Link :=
  match c, pc s with
  | Main, InBatch (link :: _) => [link]
  | _, _ => []
  end.

Definition setMain (s : State) (n' : Z) (pc' : MainPC) : State :=
  mkState n' (visited s) (res s) pc' (goroutines s) (requestTokens s)
          (logged s) (panicked s).

(** The batches a sequence of operations puts on [frontier]. *)
Definition sends (ops : list Op) : list (list Link) :=
  flat_map (fun o => match o with OpSend b => [b] | _ => [] end) ops.

Definition isAnchorEnd (token : Token) : bool :=
  N.eqb (DataAtom token) atom_A &&
  match TokType token with EndTagToken => true | _ => false end.

(** ** The earlier revision (first [main.go]) *)

Module V1.

Section Program.

Variable unicodeLower : string -> string.
Variable http_Get : string -> Response + error.

(** The [for] loop of [ExtractLinks], followed by [log.Debug(links)] and the
    [return] after its [break].  The result is [None] when the function
    panics on the nil pointer [start]. *)
Fixpoint scan (page : list Token) (depth : Z) (start : option Token) (text : string)
    (links : list Link) (lg : list LogEntry) : option (list Link) * list LogEntry :=
  match page with
  | [] => (Some links, lg ++ [Logv Debug [ALinks links]])
  | token :: page' =>
      match TokType token with
      | ErrorToken => (Some links, lg ++ [Logv Debug [ALinks links]])
      | _ =>
          (* Set text for previous token if have start *)
          let text :=
            match start, TokType token with
            | Some _, TextToken => (text ++ Data token)%string
            | _, _ => text
            end in
          (* Set start if anchor token *)
          if N.eqb (DataAtom token) atom_A then
            match TokType token with
            | StartTagToken =>
                if (0 <? List.length (Attr token))%nat
                then scan page' depth (Some token) text links lg
                else scan page' depth start text links lg
            | EndTagToken =>
                match start with
                | None =>
                    (* the warning, then [*start] with [start == nil] *)
                    (None, lg ++ [Logf Warn "Link End found, no Start: %s" [AStr text]])
                | Some st =>
                    let link := NewLink st text depth in
                    if Valid unicodeLower link
                    then scan page' depth None ""
                           (links ++ [link])
                           (lg ++ [Logf Debug "Link Found %v" [ALink link]])
                    else scan page' depth None "" links lg
                end
            | _ => scan page' depth start text links lg
            end
          else scan page' depth start text links lg
      end
  end.

(** [func ExtractLinks(resp *http.Response, depth int) (links []Link)] *)
Definition ExtractLinks (resp : Response) (depth : Z)
    : option (list Link) * list LogEntry :=
  scan (Body resp) depth None "" [] [].

(** The goroutine [go func(link Link) {...}(link)], one operation at a time:
    the operation, the goroutine afterwards, and what was logged. *)
Definition worker (g : Goroutine) : option (Op * Goroutine * list LogEntry) :=
  match g with
  | GFetch link =>
      let '((resp, err), lg) := getUrl http_Get (url link) in
      match err, resp with
      | Some _, _ => Some (OpGetUrl (url link), GExit, lg)
      | None, Some r => Some (OpGetUrl (url link), GAcquire link r, lg)
      | None, None =>
          (* [resp == nil] with [err == nil]: [ExtractLinks] would read
             [resp.Body]; [getUrl] never returns this pair *)
          Some (OpPanic, GExit, lg)
      end
  | GAcquire link resp => Some (OpAcquire, GExtract link resp, [])
  | GExtract link resp =>
      match ExtractLinks resp (wrap (depth link + 1)) with
      | (Some newLinks, lg) => Some (OpExtract, GRelease newLinks, lg)
      | (None, lg) => Some (OpPanic, GExit, lg)
      end
  | GRelease newLinks => Some (OpRelease, GSend newLinks, [])
  | GSend batch => Some (OpSend batch, GExit, [])
  | GExit => None
  end.

(** All operations of a goroutine from where it stands until it returns. *)
Fixpoint workerOps (fuel : nat) (g : Goroutine) : list Op :=
  match fuel with
  | O => []
  | S fuel' =>
      match worker g with
      | Some (op, g', _) => op :: workerOps fuel' g'
      | None => []
      end
  end.

Variable maxDepth : Z.

(** One iteration of [for _, link := range links] in [crawler]; [break]
    leaves the inner loop, which is where [InBatch []] stands. *)
Definition visit (link : Link) (rest : list Link) (s : State) : State :=
  if isVisited (visited s) (url link) then
    mkState (n s) (visited s) (res s) (InBatch rest) (goroutines s)
            (requestTokens s) (logged s) (panicked s)
  else
    let visited' := <[url link := true]> (visited s) in
    (* don't add children to frontier if depth is maxed *)
    if depth link =? wrap (maxDepth + 1) then
      mkState 0 visited' (res s) (InBatch []) (goroutines s)
              (requestTokens s) (logged s) (panicked s)
    else
      let res' := res s ++ [link] in
      let logged' :=
        logged s ++ [Logf Debug "Appended %s at Depth %d %d"
                       [AStr (url link); AInt (depth link); AInt (n s)]] in
      mkState (wrap (n s + 1)) visited' res' (InBatch rest)
              (goroutines s ++ [GFetch link])
              (requestTokens s) logged' (panicked s).

(** [crawler] between two receives. *)
Definition mainStep (s : State) : option State :=
  match pc s with
  | LoopHead =>
      if n s >? 0 then None
      else Some (mkState (n s) (visited s) (res s) Returned (goroutines s)
                         (requestTokens s) (logged s) (panicked s))
  | InBatch [] =>
      Some (mkState (wrap (n s - 1)) (visited s) (res s) LoopHead (goroutines s)
                    (requestTokens s) (logged s) (panicked s))
  | InBatch (link :: rest) => Some (visit link rest s)
  | Returned => None
  end.

(** [links := <-frontier] meeting [frontier <- batch] of goroutine [g]. *)
Definition receiveStep (g : nat) (s : State) : option State :=
  match pc s, goroutines s !! g with
  | LoopHead, Some (GSend batch) =>
      if n s >? 0 then
        Some (mkState (n s) (visited s) (res s) (InBatch batch)
                      (<[g := GExit]> (goroutines s))
                      (requestTokens s) (logged s) (panicked s))
      else None
  | _, _ => None
  end.

(** Goroutine [g] performs its next operation, if the channels allow it. *)
Definition goStep (g : nat) (s : State) : option State :=
  match goroutines s !! g with
  | Some st =>
      match worker st with
      | Some (OpSend _, _, _) => None
      | Some (OpPanic, _, lg) => Some (crash s lg)
      | Some (OpAcquire, st', lg) =>
          if (requestTokens s <? tokenCap)%nat
          then Some (setGoroutine s g st' lg (S (requestTokens s)))
          else None
      | Some (OpRelease, st', lg) =>
          match requestTokens s with
          | O => None
          | S k => Some (setGoroutine s g st' lg k)
          end
      | Some (_, st', lg) => Some (setGoroutine s g st' lg (requestTokens s))
      | None => None
      end
  | None => None
  end.

(** One scheduling decision.  Nothing runs after a panic; goroutines are not
    stopped by [crawler] returning. *)
Definition step (c : Choice) (s : State) : option State :=
  if panicked s then None
  else match c with
       | Main => mainStep s
       | Receive g => receiveStep g s
       | Go g => goStep g s
       end.

Fixpoint run (sched : list Choice) (s : State) : option State :=
  match sched with
  | [] => Some s
  | c :: sched' =>
      match step c s with
      | Some s' => run sched' s'
      | None => None
      end
  end.

(** [func crawler(urls []string, maxDepth int) (res []Link)] under the
    schedule [sched]: the result, if that schedule runs it to its [return]. *)
Definition crawler (sched : list Choice) (urls : list string) : option (list Link) :=
  match run sched (init urls) with
  | Some s => match pc s with Returned => Some (res s) | _ => None end
  | None => None
  end.

(** The links [crawler] has ranged over, in order, along a schedule. *)
Fixpoint history (sched : list Choice) (s : State) : list Link :=
  match sched with
  | [] => []
  | c :: sched' =>
      match step c s with
      | Some s' => ranged c s ++ history sched' s'
      | None => []
      end
  end.

(** The transitions [step] can make, by name. *)
Inductive Trans (s : State) : State -> Prop :=
  | TReturn :
      pc s = LoopHead -> n s <= 0 -> Trans s (setMain s (n s) Returned)
  | TEndBatch :
      pc s = InBatch [] -> Trans s (setMain s (wrap (n s - 1)) LoopHead)
  | TVisit link rest :
      pc s = InBatch (link :: rest) -> Trans s (visit link rest s)
  | TReceive g batch :
      pc s = LoopHead -> 0 < n s -> goroutines s !! g = Some (GSend batch) ->
      Trans s (mkState (n s) (visited s) (res s) (InBatch batch)
                       (<[g := GExit]> (goroutines s))
                       (requestTokens s) (logged s) (panicked s))
  | TFetchErr g link err lg :
      goroutines s !! g = Some (GFetch link) -> http_Get (url link) = inr err ->
      Trans s (setGoroutine s g GExit lg (requestTokens s))
  | TFetchOk g link resp lg :
      goroutines s !! g = Some (GFetch link) -> http_Get (url link) = inl resp ->
      Trans s (setGoroutine s g (GAcquire link resp) lg (requestTokens s))
  | TAcquire g link resp :
      goroutines s !! g = Some (GAcquire link resp) ->
      (requestTokens s < tokenCap)%nat ->
      Trans s (setGoroutine s g (GExtract link resp) [] (S (requestTokens s)))
  | TExtract g link resp newLinks lg :
      goroutines s !! g = Some (GExtract link resp) ->
      ExtractLinks resp (wrap (depth link + 1)) = (Some newLinks, lg) ->
      Trans s (setGoroutine s g (GRelease newLinks) lg (requestTokens s))
  | TExtractPanic g link resp lg :
      goroutines s !! g = Some (GExtract link resp) ->
      ExtractLinks resp (wrap (depth link + 1)) = (None, lg) ->
      Trans s (crash s lg)
  | TRelease g newLinks k :
      goroutines s !! g = Some (GRelease newLinks) -> requestTokens s = S k ->
      Trans s (setGoroutine s g (GSend newLinks) [] k).

End Program.

End V1.

(** ** The later revision (second [main.go]) *)

Module V2.

Section Program.

Variable unicodeLower : string -> string.
Variable http_Get : string -> Response + error.

(** The [for] loop of [ExtractLinks] over the tokens [page.Next()] still has
    to deliver; the end of the list is the tokenizer's [ErrorToken] at the
    end of the input.  [links] is the named result. *)
Fixpoint scan (page : list Token) (depth : Z) (start : option Token) (text : string)
    (links : list Link) (lg : list LogEntry) : list Link * list LogEntry :=
  match page with
  | [] => (links, lg)
  | token :: page' =>
      match TokType token with
      | ErrorToken => (links, lg)
      | _ =>
          (* Set text for previous token if have start *)
          let text :=
            match start, TokType token with
            | Some _, TextToken => (text ++ Data token)%string
            | _, _ => text
            end in
          (* Set start if anchor token *)
          if N.eqb (DataAtom token) atom_A then
            match TokType token with
            | StartTagToken =>
                if (0 <? List.length (Attr token))%nat
                then scan page' depth (Some token) text links lg
                else scan page' depth start text links lg
            | EndTagToken =>
                match start with
                | None =>
                    (links, lg ++ [Logf Warn "Link End found, no Start: %s" [AStr text]])
                | Some st =>
                    let link := NewLink st text depth in
                    if Valid unicodeLower link
                    then scan page' depth None ""
                           (links ++ [link])
                           (lg ++ [Logf Debug "Link Found %v" [ALink link]])
                    else scan page' depth None "" links lg
                end
            | _ => scan page' depth start text links lg
            end
          else scan page' depth start text links lg
      end
  end.

(** [func ExtractLinks(resp *http.Response, depth int) (links []Link)] *)
Definition ExtractLinks (resp : Response) (depth : Z) : list Link * list LogEntry :=
  scan (Body resp) depth None "" [] [].

(** The goroutine [go func(link Link) {...}(link)], one operation at a time:
    the operation, the goroutine afterwards, and what was logged. *)
Definition worker (g : Goroutine) : option (Op * Goroutine * list LogEntry) :=
  match g with
  | GFetch link =>
      let '((resp, err), lg) := getUrl http_Get (url link) in
      match err, resp with
      | Some _, _ => Some (OpGetUrl (url link), GSend [], lg)
      | None, Some r => Some (OpGetUrl (url link), GAcquire link r, lg)
      | None, None =>
          (* [resp == nil] with [err == nil]: [ExtractLinks] would read
             [resp.Body]; [getUrl] never returns this pair *)
          Some (OpPanic, GExit, lg)
      end
  | GAcquire link resp => Some (OpAcquire, GExtract link resp, [])
  | GExtract link resp =>
      let '(newLinks, lg) := ExtractLinks resp (wrap (depth link + 1)) in
      Some (OpExtract, GRelease newLinks, lg)
  | GRelease newLinks => Some (OpRelease, GSend newLinks, [])
  | GSend batch => Some (OpSend batch, GExit, [])
  | GExit => None
  end.

(** All operations of a goroutine from where it stands until it returns. *)
Fixpoint workerOps (fuel : nat) (g : Goroutine) : list Op :=
  match fuel with
  | O => []
  | S fuel' =>
      match worker g with
      | Some (op, g', _) => op :: workerOps fuel' g'
      | None => []
      end
  end.

(** What the worker for [link] puts on [frontier], read off [worker]: nothing
    was fetched, or what [ExtractLinks] found one level deeper. *)
Definition batchOf (link : Link) : list Link :=
  match http_Get (url link) with
  | inl resp => fst (ExtractLinks resp (wrap (depth link + 1)))
  | inr _ => []
  end.

Variable maxDepth : Z.

(** One iteration of [for _, link := range links] in [crawler]. *)
Definition visit (link : Link) (rest : list Link) (s : State) : State :=
  if isVisited (visited s) (url link) then
    mkState (n s) (visited s) (res s) (InBatch rest) (goroutines s)
            (requestTokens s) (logged s) (panicked s)
  else
    let visited' := <[url link := true]> (visited s) in
    let res' := res s ++ [link] in
    let logged' :=
      logged s ++ [Logf Info "Appended: %s at Depth: %d" [AStr (url link); AInt (depth link)];
                   Logf Debug "n sends to send: %d" [AInt (n s)]] in
    (* don't add children sets to frontier if depth is maxed *)
    if depth link =? maxDepth then
      mkState (n s) visited' res' (InBatch rest) (goroutines s)
              (requestTokens s) logged' (panicked s)
    else
      mkState (wrap (n s + 1)) visited' res' (InBatch rest)
              (goroutines s ++ [GFetch link])
              (requestTokens s) logged' (panicked s).

(** [crawler] between two receives. *)
Definition mainStep (s : State) : option State :=
  match pc s with
  | LoopHead =>
      if n s >? 0 then None
      else Some (mkState (n s) (visited s) (res s) Returned (goroutines s)
                         (requestTokens s) (logged s) (panicked s))
  | InBatch [] =>
      Some (mkState (wrap (n s - 1)) (visited s) (res s) LoopHead (goroutines s)
                    (requestTokens s) (logged s) (panicked s))
  | InBatch (link :: rest) => Some (visit link rest s)
  | Returned => None
  end.

(** [links := <-frontier] meeting [frontier <- batch] of goroutine [g]. *)
Definition receiveStep (g : nat) (s : State) : option State :=
  match pc s, goroutines s !! g with
  | LoopHead, Some (GSend batch) =>
      if n s >? 0 then
        Some (mkState (n s) (visited s) (res s) (InBatch batch)
                      (<[g := GExit]> (goroutines s))
                      (requestTokens s) (logged s) (panicked s))
      else None
  | _, _ => None
  end.

(** Goroutine [g] performs its next operation, if the channels allow it. *)
Definition goStep (g : nat) (s : State) : option State :=
  match goroutines s !! g with
  | Some st =>
      match worker st with
      | Some (OpSend _, _, _) => None
      | Some (OpPanic, _, lg) => Some (crash s lg)
      | Some (OpAcquire, st', lg) =>
          if (requestTokens s <? tokenCap)%nat
          then Some (setGoroutine s g st' lg (S (requestTokens s)))
          else None
      | Some (OpRelease, st', lg) =>
          match requestTokens s with
          | O => None
          | S k => Some (setGoroutine s g st' lg k)
          end
      | Some (_, st', lg) => Some (setGoroutine s g st' lg (requestTokens s))
      | None => None
      end
  | None => None
  end.

(** One scheduling decision.  Nothing runs after a panic; goroutines are not
    stopped by [crawler] returning. *)
Definition step (c : Choice) (s : State) : option State :=
  if panicked s then None
  else match c with
       | Main => mainStep s
       | Receive g => receiveStep g s
       | Go g => goStep g s
       end.

Fixpoint run (sched : list Choice) (s : State) : option State :=
  match sched with
  | [] => Some s
  | c :: sched' =>
      match step c s with
      | Some s' => run sched' s'
      | None => None
      end
  end.

(** [func crawler(urls []string, maxDepth int) (res []Link)] under the
    schedule [sched]: the result, if that schedule runs it to its [return]. *)
Definition crawler (sched : list Choice) (urls : list string) : option (list Link) :=
  match run sched (init urls) with
  | Some s => match pc s with Returned => Some (res s) | _ => None end
  | None => None
  end.

(** The links [crawler] has ranged over, in order, along a schedule. *)
Fixpoint history (sched : list Choice) (s : State) : list Link :=
  match sched with
  | [] => []
  | c :: sched' =>
      match step c s with
      | Some s' => ranged c s ++ history sched' s'
      | None => []
      end
  end.

(** The transitions [step] can make, by name. *)
Inductive Trans (s : State) : State -> Prop :=
  | TReturn :
      pc s = LoopHead -> n s <= 0 -> Trans s (setMain s (n s) Returned)
  | TEndBatch :
      pc s = InBatch [] -> Trans s (setMain s (wrap (n s - 1)) LoopHead)
  | TVisit link rest :
      pc s = InBatch (link :: rest) -> Trans s (visit link rest s)
  | TReceive g batch :
      pc s = LoopHead -> 0 < n s -> goroutines s !! g = Some (GSend batch) ->
      Trans s (mkState (n s) (visited s) (res s) (InBatch batch)
                       (<[g := GExit]> (goroutines s))
                       (requestTokens s) (logged s) (panicked s))
  | TFetchErr g link err lg :
      goroutines s !! g = Some (GFetch link) -> http_Get (url link) = inr err ->
      Trans s (setGoroutine s g (GSend []) lg (requestTokens s))
  | TFetchOk g link resp lg :
      goroutines s !! g = Some (GFetch link) -> http_Get (url link) = inl resp ->
      Trans s (setGoroutine s g (GAcquire link resp) lg (requestTokens s))
  | TAcquire g link resp :
      goroutines s !! g = Some (GAcquire link resp) ->
      (requestTokens s < tokenCap)%nat ->
      Trans s (setGoroutine s g (GExtract link resp) [] (S (requestTokens s)))
  | TExtract g link resp lg :
      goroutines s !! g = Some (GExtract link resp) ->
      Trans s (setGoroutine s g
                 (GRelease (fst (ExtractLinks resp (wrap (depth link + 1)))))
                 lg (requestTokens s))
  | TRelease g newLinks k :
      goroutines s !! g = Some (GRelease newLinks) -> requestTokens s = S k ->
      Trans s (setGoroutine s g (GSend newLinks) [] k).

End Program.

End V2.

(** ** Statements about both revisions *)

Inductive Revision := Earlier | Later.

Definition run (r : Revision) :=
  match r with Earlier => V1.run | Later => V2.run end.

Definition history (r : Revision) :=
  match r with Earlier => V1.history | Later => V2.history end.

Definition crawler (r : Revision) :=
  match r with Earlier => V1.crawler | Later => V2.crawler end.

(** ** Counting goroutines *)

Definition holdsToken (g : Goroutine) : nat :=
  match g with GExtract _ _ | GRelease _ => 1 | _ => 0 end.

(** The goroutine is inside [ExtractLinks]. *)
Definition extracting (g : Goroutine) : nat :=
  match g with GExtract _ _ => 1 | _ => 0 end.

(** The goroutine is inside [getUrl]. *)
Definition fetching (g : Goroutine) : nat :=
  match g with GFetch _ => 1 | _ => 0 end.

(** The goroutine has not returned: its send on [frontier] is still due. *)
Definition live (g : Goroutine) : nat :=
  match g with GExit => 0 | _ => 1 end.

Definition count (f : Goroutine -> nat) (s : State) : nat :=
  sum_list_with f (goroutines s).

(** The channel holds one element per goroutine between its send on
    [requestTokens] and its receive from it, and never more than its capacity. *)
Definition tokensHeld (s : State) : Prop :=
  requestTokens s = count holdsToken s /\ (requestTokens s <= tokenCap)%nat.

(** ** Depth bounds kept by the scheduler *)

Definition depthOk (maxDepth : Z) (l : Link) : Prop := 0 <= depth l <= maxDepth.

(** Later revision: only links below the bound are expanded, so everything
    in flight is within the bound. *)
Definition goroutineOk2 (maxDepth : Z) (g : Goroutine) : Prop :=
  match g with
  | GFetch l | GAcquire l _ | GExtract l _ => 0 <= depth l < maxDepth
  | GRelease b | GSend b => Forall (depthOk maxDepth) b
  | GExit => True
  end.

Definition depthInv2 (maxDepth : Z) (s : State) : Prop :=
  Forall (depthOk maxDepth) (res s) /\
  match pc s with InBatch ls => Forall (depthOk maxDepth) ls | _ => True end /\
  Forall (goroutineOk2 maxDepth) (goroutines s).

(** Earlier revision: links at the bound are expanded too, so a batch may
    carry links one level beyond it. *)
Definition inFlightOk (maxDepth : Z) (l : Link) : Prop :=
  depthOk maxDepth l \/ depth l = wrap (maxDepth + 1).

Definition goroutineOk1 (maxDepth : Z) (g : Goroutine) : Prop :=
  match g with
  | GFetch l | GAcquire l _ | GExtract l _ => depthOk maxDepth l
  | GRelease b | GSend b => Forall (inFlightOk maxDepth) b
  | GExit => True
  end.

Definition depthInv1 (maxDepth : Z) (s : State) : Prop :=
  Forall (depthOk maxDepth) (res s) /\
  match pc s with InBatch ls => Forall (inFlightOk maxDepth) ls | _ => True end /\
  Forall (goroutineOk1 maxDepth) (goroutines s).

(** ** First discovery *)

(** The first link with url [u] among the links ranged over. *)
Definition firstSeen (u : string) (h : list Link) : option Link :=
  find (fun x => String.eqb (url x) u) h.

(** What the visited set and the result have to do with the links [h]
    ranged over so far. *)
Definition dedupInv (h : list Link) (s : State) : Prop :=
  NoDup (map url (res s)) /\
  (forall l, In l (res s) -> firstSeen (url l) h = Some l) /\
  (forall l, In l h -> isVisited (visited s) (url l) = true).

(** ** A bound on the steps a crawl of the later revision can still take *)

Section Measure.

Variable unicodeLower : string -> string.
Variable http_Get : string -> Response + error.
Variable maxDepth : Z.

(** Steps caused by ranging over [link] when [fuel] levels are left below
    it: the visit itself and, if the link is expanded, the worker's four
    operations, the receive of its batch, the visits of the links in the
    batch and the end of that iteration. *)
Fixpoint work (fuel : nat) (link : Link) : nat :=
  match fuel with
  | O => 1
  | S fuel' => 7 + sum_list_with (work fuel') (V2.batchOf unicodeLower http_Get link)
  end.

Definition level (link : Link) : nat := Z.to_nat (maxDepth - depth link).

Definition cost (link : Link) : nat := work (level link) link.

Definition batchCost (b : list Link) : nat := sum_list_with cost b.

Definition goroutineCost (g : Goroutine) : nat :=
  match g with
  | GFetch l => 6 + batchCost (V2.batchOf unicodeLower http_Get l)
  | GAcquire l resp =>
      5 + batchCost (fst (V2.ExtractLinks unicodeLower resp (wrap (depth l + 1))))
  | GExtract l resp =>
      4 + batchCost (fst (V2.ExtractLinks unicodeLower resp (wrap (depth l + 1))))
  | GRelease b => 3 + batchCost b
  | GSend b => 2 + batchCost b
  | GExit => 0
  end.

Definition mainCost (p : MainPC) : nat :=
  match p with
  | LoopHead => 1
  | InBatch rest => 2 + batchCost rest
  | Returned => 0
  end.

Definition stepsLeft (s : State) : nat :=
  mainCost (pc s) + sum_list_with goroutineCost (goroutines s).

End Measure.

(** ** The pending counter and the goroutines that have not returned *)

Definition inBatch (p : MainPC) : Z :=
  match p with InBatch _ => 1 | _ => 0 end.

(** [n] against the goroutines still due to send, for [seeds] seed urls. *)
Definition pendingInv (seeds : nat) (s : State) : Prop :=
  n s = wrap (Z.of_nat (count live s) + (Z.of_nat seeds - 1) + inBatch (pc s)).


(** ** Concrete documents and webs used in the examples *)

Definition anchorStart (href : string) : Token :=
  mkToken StartTagToken atom_A "a" [mkAttr "" "href" href].

Definition anchorEnd : Token := mkToken EndTagToken atom_A "a" [].

Definition textToken (s : string) : Token := mkToken TextToken 0%N s [].

(** [<a href="http://y/">Y</a><a href="javascript:void(0)">bad</a>] *)
Definition pageX : list Token :=
  [anchorStart "http://y/"; textToken "Y"; anchorEnd;
   anchorStart "javascript:void(0)"; textToken "bad"; anchorEnd].

(** [<a href="http://z/">Z</a>] *)
Definition pageZ : list Token :=
  [anchorStart "http://z/"; textToken "Z"; anchorEnd].

(** A web of three kinds of URL: [http://x/] serves [pageX], [http://y/]
    cannot be reached, anything else answers 404 with [pageZ] as its body. *)
Definition exampleWeb (u : string) : Response + error :=
  if String.eqb u "http://x/" then inl (mkResponse 200 pageX)
  else if String.eqb u "http://y/" then inr (TransportError "connection refused")
  else inl (mkResponse 404 pageZ).

(** Every string of the examples is ASCII, so the Unicode path of
    [strings.ToLower] is never taken; any function can stand for it. *)
Definition noUnicode (s : string) : string := s.

Definition seedX : Link := mkLink "http://x/" "http://x/" 0.
Definition linkY : Link := mkLink "http://y/" "Y" 1.

(** [http.Get(u)] returns an error. *)
Definition http_Get_fails (http_Get : string -> Response + error) (u : string) : Prop :=
  exists err, http_Get u = inr err.

(** A link to a URL that answers 404, and the link its error page carries. *)
Definition linkQ : Link := mkLink "http://q/" "Q" 1.
Definition linkZ2 : Link := mkLink "http://z/" "Z" 2.

(** A page with eleven anchors, and a web serving it at [http://x/] and an
    empty page everywhere else. *)
Definition wideUrls : list string :=
  map (fun c => ("http://w/" ++ String c "")%string)
      (list_ascii_of_string "abcdefghijk").

Definition pageWide : list Token :=
  flat_map (fun u => [anchorStart u; textToken u; anchorEnd]) wideUrls.

Definition wideWeb (u : string) : Response + error :=
  if String.eqb u "http://x/" then inl (mkResponse 200 pageWide)
  else inl (mkResponse 200 []).

(** The seed is received and expanded, its page is parsed, and the eleven
    links of the page are accepted one after the other. *)
Definition wideSchedule : list Choice :=
  [Receive 0; Main; Main; Go 1; Go 1; Go 1; Go 1; Receive 1]%nat ++ repeat Main 11.

(** The state a schedule leads to ([s] itself where the schedule cannot run). *)
Definition stateAfter (r : Revision) (http_Get : string -> Response + error)
    (maxDepth : Z) (sched : list Choice) (s : State) : State :=
  default s (run r noUnicode http_Get maxDepth sched s).

Definition wideState : State :=
  stateAfter Later wideWeb 2 wideSchedule (init ["http://x/"%string]).

(** A complete crawl of [exampleWeb] from [http://x/] with [maxDepth = 2]:
    the seed is expanded, its page yields the link to [http://y/], and the
    fetch of that link fails. *)
Definition scheduleXY : list Choice :=
  [Receive 0; Main; Main; Go 1; Go 1; Go 1; Go 1; Receive 1;
   Main; Main; Go 2; Receive 2; Main; Main]%nat.

(** Two seeds, [maxDepth = 0]: the seed batch is received and both of its
    links are ranged over. *)
Definition twoSeeds : list string := ["http://a/"; "http://b/"]%string.

Definition twoSeedState : State :=
  stateAfter Later exampleWeb 0 [Receive 0; Main; Main; Main]%nat (init twoSeeds).

(** One seed, [maxDepth = 0], earlier revision: the seed batch is received
    and its link is ranged over. *)
Definition seedAcceptedState : State :=
  stateAfter Earlier exampleWeb 0 [Receive 0; Main]%nat (init ["http://x/"%string]).

(** The rest of that crawl: the worker fetches and parses [http://x/], its
    batch is received, and the first link of the batch ends the crawl. *)
Definition scheduleSeedOnly : list Choice :=
  [Receive 0; Main; Main; Go 1; Go 1; Go 1; Go 1; Receive 1; Main; Main; Main]%nat.

(** The crawl [scheduleXY] just before the worker for [http://y/] calls
    [getUrl]. *)
Definition beforeFailedFetch : list Choice := firstn 10 scheduleXY.

Definition failedFetchState : State :=
  stateAfter Later exampleWeb 2 beforeFailedFetch (init ["http://x/"%string]).

(** A web in which [http://z/] is two links away from [http://x/] through
    [http://b/] and three links away through [http://a/] and [http://c/]. *)
Definition anchor (u t : string) : list Token :=
  [anchorStart u; textToken t; anchorEnd].

Definition raceWeb (u : string) : Response + error :=
  if String.eqb u "http://x/"
  then inl (mkResponse 200 (anchor "http://a/" "A" ++ anchor "http://b/" "B"))
  else if String.eqb u "http://a/" then inl (mkResponse 200 (anchor "http://c/" "C"))
  else if String.eqb u "http://b/" then inl (mkResponse 200 (anchor "http://z/" "Z"))
  else if String.eqb u "http://c/" then inl (mkResponse 200 (anchor "http://z/" "Z"))
  else inl (mkResponse 200 []).

(** Goroutine [g] fetches, parses and delivers its batch. *)
Definition runWorker (g : nat) : list Choice := [Go g; Go g; Go g; Go g; Receive g].

(** The workers for [http://a/] and [http://b/] deliver in that order. *)
Definition scheduleBFirst : list Choice :=
  [Receive 0; Main; Main]%nat ++ runWorker 1 ++ [Main; Main; Main]
  ++ runWorker 2 ++ [Main; Main] ++ runWorker 3 ++ [Main; Main]
  ++ runWorker 4 ++ [Main; Main] ++ runWorker 5 ++ [Main; Main].

(** The worker for [http://b/] delivers after the one for [http://c/]. *)
Definition scheduleBLast : list Choice :=
  [Receive 0; Main; Main]%nat ++ runWorker 1 ++ [Main; Main; Main]
  ++ runWorker 2 ++ [Main; Main] ++ runWorker 4 ++ [Main; Main]
  ++ runWorker 3 ++ [Main; Main; Main].

(** Two seeds, [maxDepth = 0], earlier revision: both seeds are expanded,
    the worker of the first delivers, and the first link of its batch ends
    the crawl. *)
Definition scheduleTwoSeedsEarlier : list Choice :=
  [Receive 0; Main; Main; Main]%nat ++ runWorker 1 ++ [Main; Main; Main].

(** ** Notions used by the further properties of the extractor *)

(** The value of the last attribute whose key is [href], if there is one. *)
Definition lastHref (attrs : list Attribute) : option string :=
  option_map Val (find (fun a => String.eqb (Key a) atom_Href_String) (rev attrs)).

(** An anchor start tag that carries at least one attribute. *)
Definition isAnchorOpener (token : Token) : bool :=
  N.eqb (DataAtom token) atom_A &&
  match TokType token with StartTagToken => true | _ => false end &&
  (0 <? List.length (Attr token))%nat.


(** 1 while an anchor is open ([start] is not nil). *)
Definition held (start : option Token) : nat :=
  match start with Some _ => 1%nat | None => 0%nat end.

(** A call of [log.Warnf]. *)
Definition isWarn (e : LogEntry) : bool :=
  match e with Logf Warn _ _ => true | _ => false end.

(** [strings.TrimSpace] would not change [s]. *)
Definition trimmed (s : string) : Prop := strings.TrimSpace s = s.

(** ** Notions used by the further properties of the scheduler *)

(** The batches a goroutine carries hold only links satisfying [P]. *)
Definition batchesSatisfy (P : Link -> Prop) (g : Goroutine) : Prop :=
  match g with
  | GRelease b | GSend b => Forall P b
  | _ => True
  end.

(** Every link that is recorded or on its way to [crawler] satisfies [P]. *)
Definition linksInv (P : Link -> Prop) (s : State) : Prop :=
  Forall P (res s) /\
  match pc s with InBatch ls => Forall P ls | _ => True end /\
  Forall (batchesSatisfy P) (goroutines s).

(** The link the seed goroutine builds for the seed url [u]. *)
Definition seedLink (u : string) : Link := mkLink (strings.TrimSpace u) u 0.

(** Where a crawl from the one seed [u] stands with respect to its seed
    link: not received yet, received and about to be ranged over, or
    recorded as the first link of the result. *)
Definition seedFirst (u : string) (s : State) : Prop :=
  (res s = [] /\ pc s = LoopHead /\ n s = 1 /\
   goroutines s = [GSend [seedLink u]] /\ visited s = ∅) \/
  (res s = [] /\ pc s = InBatch [seedLink u] /\
   goroutines s = [GExit] /\ visited s = ∅) \/
  (exists tl, res s = seedLink u :: tl).

(** The recorded links for which the later revision starts a worker. *)
Definition expanded (maxDepth : Z) (ls : list Link) : list Link :=
  List.filter (fun l => negb (depth l =? maxDepth)) ls.

(** ** Writing the result: [writeToFile] and [writeLinksToCsv]

    Package [os] is external.  Each call to it is recorded with its outcome;
    which calls report an error is a parameter, by the number of calls made
    before.  [log.Fatal] ends the process: nothing is recorded after it. *)

Definition newline : ascii := ascii_of_nat 10.

(** [strings.Replace(s, old, new, -1)] for an [old] and a [new] of one byte:
    every occurrence is replaced. *)
Fixpoint replaceByte (old new : ascii) (s : string) : string :=
  match s with
  | EmptyString => EmptyString
  | String c s' => String (if Ascii.eqb c old then new else c) (replaceByte old new s')
  end.

Fixpoint countByte (c : ascii) (s : string) : nat :=
  match s with
  | EmptyString => 0%nat
  | String c' s' => ((if Ascii.eqb c' c then 1 else 0) + countByte c s')%nat
  end.

Inductive OsCall :=
  | OsRemoveAll (path : string)
  | OsCreate (path : string)
  | OsOpenFile (path : string)    (* O_APPEND|O_CREATE|O_WRONLY, 0644 *)
  | OsWrite (path : string) (data : string)
  | OsClose (path : string).

Inductive OsEvent :=
  | Called (c : OsCall) (ok : bool)
  | Fatal.

Definition isCalled (e : OsEvent) : bool :=
  match e with Called _ _ => true | Fatal => false end.

Definition isFatal (e : OsEvent) : bool :=
  match e with Fatal => true | _ => false end.

(** Calls to [os] made so far. *)
Definition calls (tr : list OsEvent) : nat := List.length (List.filter isCalled tr).

(** [log.Fatal] was reached. *)
Definition exited (tr : list OsEvent) : bool := existsb isFatal tr.

(** The data of the writes that succeeded, in order. *)
Fixpoint written (tr : list OsEvent) : list string :=
  match tr with
  | [] => []
  | Called (OsWrite _ data) true :: tr' => data :: written tr'
  | _ :: tr' => written tr'
  end.

Section Csv.

Variable fails : nat -> bool.

(** A call followed by [if err != nil { log.Fatal(err) }]. *)
Definition checked (c : OsCall) (tr : list OsEvent) : list OsEvent :=
  if exited tr then tr
  else if fails (calls tr) then tr ++ [Called c false; Fatal]
       else tr ++ [Called c true].

(** A call whose error is dropped. *)
Definition unchecked (c : OsCall) (tr : list OsEvent) : list OsEvent :=
  if exited tr then tr else tr ++ [Called c (negb (fails (calls tr)))].

(** [func writeToFile(path string, text string)] *)
Definition writeToFile (path text : string) (tr : list OsEvent) : list OsEvent :=
  checked (OsClose path) (checked (OsWrite path text) (checked (OsOpenFile path) tr)).

Definition csvHeader : string := "text, url, depth" ++ String newline "".

(** The row of one link: [text] with its line feeds replaced by spaces, then
    [fmt.Sprintf("%s, %s, %d\n", text, link.url, link.depth)]. *)
Definition csvRow (link : Link) : string :=
  replaceByte newline " " (text link) ++ ", " ++ url link ++ ", "
  ++ strings.fmtInt (depth link) ++ String newline "".

(** [func writeLinksToCsv(outputPath string, links []Link)]; the later
    revision also calls [os.Create(outputPath)] and drops its results. *)
Definition writeLinksToCsv (r : Revision) (outputPath : string) (links : list Link)
    (tr : list OsEvent) : list OsEvent :=
  let tr := checked (OsRemoveAll outputPath) tr in
  let tr := match r with
            | Earlier => tr
            | Later => unchecked (OsCreate outputPath) tr
            end in
  let tr := writeToFile outputPath csvHeader tr in
  fold_left (fun tr link => writeToFile outputPath (csvRow link) tr) links tr.

End Csv.

(** ** [Link.String] *)

(** [strings.Repeat(s, count)]; [None] where it panics: a negative count, a
    result longer than an [int] can count, or a result the runtime cannot
    allocate.  [maxAlloc] is the size in bytes of the largest allocation that
    succeeds: the runtime's own limit, or less where memory is short. *)
Definition Repeat (maxAlloc : Z) (s : string) (count : Z) : option string :=
  let size := Z.of_nat (String.length s) * count in
  if (count <? 0) || (maxInt <? size) || (maxAlloc <? size) then None
  else Some (String.concat "" (repeat s (Z.to_nat count))).

(** [func (self Link) String() string]; [None] where it panics. *)
Definition Link_String (maxAlloc : Z) (self : Link) : option string :=
  match Repeat maxAlloc (String (ascii_of_nat 9) "") (depth self) with
  | Some spacer =>
      Some (spacer ++ text self ++ " (" ++ strings.fmtInt (depth self) ++ ") - "
            ++ url self)%string
  | None => None
  end.

(** The limit of the runtime on a 64-bit machine. *)
Definition maxAlloc64 : Z := 2 ^ 48.

(** A link whose text and url both hold a line feed. *)
Definition linkTwoLines : Link :=
  mkLink ("http://y/a" ++ String newline "b") ("two" ++ String newline "lines") 1.

(** No call fails. *)
Definition neverFails (k : nat) : bool := false.

(** The sixth call fails. *)
Definition sixthFails (k : nat) : bool := (k =? 5)%nat.

(** ** The urls a crawl fetches *)

Definition step (r : Revision) :=
  match r with Earlier => V1.step | Later => V2.step end.

(** The url a goroutine that has not called [getUrl] yet will fetch. *)
Definition fetchUrl (g : Goroutine) : list string :=
  match g with GFetch link => [url link] | _ => [] end.

(** The urls of the workers that have not called [getUrl] yet. *)
Definition toFetch (gs : list Goroutine) : list string := flat_map fetchUrl gs.

(** The url [getUrl] is called with when decision [c] is made in [s]. *)
Definition fetchedBy (c : Choice) (s : State) : list string :=
  match c with
  | Go g => match goroutines s !! g with Some st => fetchUrl st | None => [] end
  | _ => []
  end.

(** The urls [getUrl] is called with, in order, along a schedule. *)
Fixpoint fetches (r : Revision) (unicodeLower : string -> string)
    (http_Get : string -> Response + error) (maxDepth : Z)
    (sched : list Choice) (s : State) : list string :=
  match sched with
  | [] => []
  | c :: sched' =>
      match step r unicodeLower http_Get maxDepth c s with
      | Some s' => fetchedBy c s ++ fetches r unicodeLower http_Get maxDepth sched' s'
      | None => []
      end
  end.

(** The recorded links for which a worker is started: all of them in the
    earlier revision, those not at [maxDepth] in the later one. *)
Definition workedOn (r : Revision) (maxDepth : Z) (ls : list Link) : list Link :=
  match r with Earlier => ls | Later => expanded maxDepth ls end.

(** The workers still to fetch stand for different urls, all of recorded
    links with a worker, and every recorded url is marked visited. *)
Definition fetchInv (r : Revision) (maxDepth : Z) (s : State) : Prop :=
  NoDup (toFetch (goroutines s)) /\
  (forall u, In u (toFetch (goroutines s)) ->
             In u (map url (workedOn r maxDepth (res s)))) /\
  (forall u, In u (map url (res s)) -> isVisited (visited s) u = true).

(** What a step does to the workers still to fetch and to the result. *)
Definition fetchStep (r : Revision) (maxDepth : Z) (s s' : State) : Prop :=
  fetchInv r maxDepth s' /\
  (forall u, In u (toFetch (goroutines s')) ->
             In u (toFetch (goroutines s)) \/ ~ In u (map url (res s))) /\
  exists ext, res s' = res s ++ ext.

(** A page with two links to [http://x/], served at every url: crawled from
    [http://x/], a cyclic site. *)
Definition pageSelf : list Token :=
  anchor "http://x/" "again" ++ anchor "http://x/" "and again".

Definition selfWeb (u : string) : Response + error := inl (mkResponse 200 pageSelf).

(** A complete crawl of [selfWeb] from [http://x/]. *)
Definition scheduleSelf : list Choice :=
  [Receive 0; Main; Main]%nat ++ runWorker 1 ++ [Main; Main; Main; Main].

(** The complete crawl of [raceWeb] in which [http://z/] is met at depth 2
    first and at depth 3 later. *)
Definition raceState : State :=
  stateAfter Later raceWeb 3 scheduleBFirst (init ["http://x/"%string]).

Definition selfState : State :=
  stateAfter Later selfWeb 64 scheduleSelf (init ["http://x/"%string]).

(** * Properties *)

(** ** The link extractor *)

Section Extractor.

Variable unicodeLower : string -> string.

Local Abbreviation ValidP := (fun l : Link => Valid unicodeLower l = true).

Lemma Valid_true (l : Link) :
  Valid unicodeLower l = true ->
  text l <> ""%string /\ url l <> ""%string /\
  strings.Contains (strings.ToLower unicodeLower (url l)) "javascript" = false.
Proof.
  unfold Valid. intros H.
  destruct (text l) as [|c t] eqn:Et; simpl in H; [discriminate|].
  destruct (url l) as [|d u] eqn:Eu; simpl in H; [discriminate|].
  split; [discriminate|]. split; [discriminate|].
  destruct (strings.Contains _ _); [discriminate | reflexivity].
Qed.

Lemma V2_scan_valid page : forall depth start text links lg,
  Forall ValidP links ->
  Forall ValidP (fst (V2.scan unicodeLower page depth start text links lg)).
Proof.
  induction page as [|token page IH]; intros depth start text links lg Hl;
    simpl; [exact Hl|].
  destruct (TokType token) eqn:Ety; try exact Hl;
    destruct (N.eqb (DataAtom token) atom_A); try (apply IH; exact Hl).
  - destruct (0 <? List.length (Attr token))%nat; apply IH; exact Hl.
  - destruct start as [st|]; [|exact Hl].
    destruct (Valid unicodeLower (NewLink st text depth)) eqn:Ev; apply IH; [|exact Hl].
    apply Forall_app; split; [exact Hl|]. constructor; [exact Ev | constructor].
Qed.

Lemma V1_scan_valid page : forall depth start text links lg ls,
  Forall ValidP links ->
  fst (V1.scan unicodeLower page depth start text links lg) = Some ls ->
  Forall ValidP ls.
Proof.
  induction page as [|token page IH]; intros depth start text links lg ls Hl;
    simpl.
  - intros [= <-]. exact Hl.
  - destruct (TokType token) eqn:Ety; try (intros [= <-]; exact Hl);
      destruct (N.eqb (DataAtom token) atom_A); try (apply IH; exact Hl).
    + destruct (0 <? List.length (Attr token))%nat; apply IH; exact Hl.
    + destruct start as [st|]; [|discriminate].
      destruct (Valid unicodeLower (NewLink st text depth)) eqn:Ev; apply IH; [|exact Hl].
      apply Forall_app; split; [exact Hl|]. constructor; [exact Ev | constructor].
Qed.

End Extractor.

(** ** The library model against its description *)

Example TrimSpace_ascii : strings.TrimSpace "  a b 	" = "a b"%string.
Proof. reflexivity. Qed.

(** U+00A0 in front, U+2008 behind. *)
Example TrimSpace_unicode :
  strings.TrimSpace
    (string_of_list_ascii
       (strings.bytes [194; 160]%nat ++ list_ascii_of_string "x y"
        ++ strings.bytes [226; 128; 136]%nat))
  = "x y"%string.
Proof. reflexivity. Qed.

Example ToLower_mixed_case :
  strings.ToLower noUnicode "JavaScript:void(0)" = "javascript:void(0)"%string.
Proof. reflexivity. Qed.

Example javascript_link_is_not_valid :
  Valid noUnicode (mkLink "JavaScript:void(0)" "bad" 1) = false /\
  Valid noUnicode linkY = true /\
  Valid noUnicode (mkLink "http://y/" "" 1) = false /\
  Valid noUnicode (mkLink "" "Y" 1) = false.
Proof. repeat split. Qed.

Lemma HasPrefixB_spec (s p : list ascii) :
  strings.HasPrefixB s p = true <-> exists post, s = p ++ post.
Proof.
  revert s. induction p as [|c p IH]; intros s; simpl.
  - split; [intros _; exists s; reflexivity | intros _; destruct s; reflexivity].
  - destruct s as [|d s]; simpl.
    + split; [discriminate | intros [post H]; discriminate].
    + rewrite andb_true_iff, IH. split.
      * intros [Hc [post ->]]. apply Ascii.eqb_eq in Hc as ->. eauto.
      * intros [post H]. injection H as -> ->. split; [apply Ascii.eqb_refl | eauto].
Qed.

Lemma ContainsB_spec (s sub : list ascii) :
  strings.ContainsB s sub = true <-> exists pre post, s = pre ++ sub ++ post.
Proof.
  induction s as [|c s IH].
  - cbn [strings.ContainsB]. rewrite orb_false_r, HasPrefixB_spec. split.
    + intros [post H]. exists [], post. exact H.
    + intros (pre & post & H). destruct pre; [eauto | discriminate].
  - cbn [strings.ContainsB]. rewrite orb_true_iff, HasPrefixB_spec, IH. split.
    + intros [[post H] | (pre & post & H)].
      * exists [], post. exact H.
      * exists (c :: pre), post. rewrite H. reflexivity.
    + intros (pre & post & H). destruct pre as [|d pre]; simpl in H.
      * left. eauto.
      * right. injection H as -> ->. eauto.
Qed.

Lemma lowerByte_not_upper (b : list ascii) :
  existsb strings.isUpper b = false -> map strings.lowerByte b = b.
Proof.
  induction b as [|c b IH]; simpl; [reflexivity|].
  intros H. apply orb_false_iff in H as [Hc Hb].
  unfold strings.lowerByte at 1. rewrite Hc, IH; [reflexivity | exact Hb].
Qed.

(** On an ASCII-only string [strings.ToLower] lowers every byte. *)
Lemma ToLower_ascii (unicodeLower : string -> string) (s : string) :
  forallb strings.isASCII (list_ascii_of_string s) = true ->
  list_ascii_of_string (strings.ToLower unicodeLower s)
  = map strings.lowerByte (list_ascii_of_string s).
Proof.
  intros H. unfold strings.ToLower. rewrite H.
  destruct (existsb strings.isUpper (list_ascii_of_string s)) eqn:E.
  - apply list_ascii_of_string_of_list_ascii.
  - symmetry. apply lowerByte_not_upper. exact E.
Qed.

(** For an ASCII-only url the test in [Valid] is case-insensitive
    containment as the spec words it. *)
Lemma Contains_ToLower_fold (unicodeLower : string -> string) (s sub : string) :
  forallb strings.isASCII (list_ascii_of_string s) = true ->
  strings.Contains (strings.ToLower unicodeLower s) sub = true <-> containsFold s sub.
Proof.
  intros H. unfold strings.Contains, containsFold.
  rewrite (ToLower_ascii unicodeLower s H), ContainsB_spec. split.
  - intros (pre & post & E).
    apply map_eq_app in E as (l1 & l23 & -> & <- & E).
    apply map_eq_app in E as (l2 & l3 & -> & <- & <-).
    exists l1, l2, l3. split; [exact E0 || reflexivity | reflexivity].
  - intros (pre & w & post & E & <-). rewrite E, !map_app. eauto.
Qed.

(** C9. Every link [ExtractLinks] returns, in either revision, passed
    [Valid]: its text is not empty, its url is not empty, and the lower-cased
    url does not contain "javascript" (for an ASCII url: no substring of it
    is "javascript" up to the case of its letters).  A link failing the test
    is therefore never in the output. *)
Theorem C9_extracted_links_are_valid
    (unicodeLower : string -> string) (resp : Response) (d : Z) (l : Link) :
  In l (fst (V2.ExtractLinks unicodeLower resp d)) \/
  (exists ls, fst (V1.ExtractLinks unicodeLower resp d) = Some ls /\ In l ls) ->
  Valid unicodeLower l = true /\
  text l <> ""%string /\ url l <> ""%string /\
  strings.Contains (strings.ToLower unicodeLower (url l)) "javascript" = false /\
  (forallb strings.isASCII (list_ascii_of_string (url l)) = true ->
   ~ containsFold (url l) "javascript").
Proof.
  intros H.
  assert (Hv : Valid unicodeLower l = true).
  { destruct H as [H | (ls & Hls & H)].
    - pose proof (V2_scan_valid unicodeLower (Body resp) d None "" [] []
                    (List.Forall_nil _)) as HF.
      rewrite List.Forall_forall in HF. apply HF. exact H.
    - pose proof (V1_scan_valid unicodeLower (Body resp) d None "" [] [] ls
                    (List.Forall_nil _) Hls) as HF.
      rewrite List.Forall_forall in HF. apply HF. exact H. }
  destruct (Valid_true unicodeLower l Hv) as (Ht & Hu & Hj).
  repeat split; try assumption.
  intros Ha Hf. apply (Contains_ToLower_fold unicodeLower _ _ Ha) in Hf. congruence.
Qed.

Lemma C9_witness :
  Valid noUnicode linkY = true /\
  text linkY <> ""%string /\ url linkY <> ""%string /\
  strings.Contains (strings.ToLower noUnicode (url linkY)) "javascript" = false /\
  (forallb strings.isASCII (list_ascii_of_string (url linkY)) = true ->
   ~ containsFold (url linkY) "javascript").
Proof.
  apply (C9_extracted_links_are_valid noUnicode (mkResponse 200 pageX) 1 linkY).
  left. vm_compute. left. reflexivity.
Defined.

(** In the earlier revision the same encounter ends in the nil dereference
    [*start], after the warning. *)
Lemma V1_orphan_end_tag_panics (unicodeLower : string -> string)
    (token : Token) (page : list Token) (d : Z) (txt : string)
    (links : list Link) (lg : list LogEntry) :
  isAnchorEnd token = true ->
  V1.scan unicodeLower (token :: page) d None txt links lg
  = (None, lg ++ [Logf Warn "Link End found, no Start: %s" [AStr txt]]).
Proof.
  unfold isAnchorEnd. intros H. apply andb_true_iff in H as [Ha Ht].
  simpl. destruct (TokType token); try discriminate. rewrite Ha. reflexivity.
Qed.

(** C5, as the code has it.  When the loop of [ExtractLinks] (later
    revision) meets an anchor end tag while [start] is nil, it logs the
    warning and returns at once, without a panic, the links collected so far;
    the tokens after it are not examined. *)
Theorem C5_orphan_end_tag_ends_extraction (unicodeLower : string -> string)
    (token : Token) (page : list Token) (d : Z) (txt : string)
    (links : list Link) (lg : list LogEntry) :
  isAnchorEnd token = true ->
  V2.scan unicodeLower (token :: page) d None txt links lg
  = (links, lg ++ [Logf Warn "Link End found, no Start: %s" [AStr txt]]).
Proof.
  unfold isAnchorEnd. intros H. apply andb_true_iff in H as [Ha Ht].
  simpl. destruct (TokType token); try discriminate. rewrite Ha. reflexivity.
Qed.

Lemma C5_witness :
  V2.scan noUnicode (anchorEnd :: pageX) 1 None "" [] []
  = ([], [] ++ [Logf Warn "Link End found, no Start: %s" [AStr ""]]).
Proof.
  apply (C5_orphan_end_tag_ends_extraction noUnicode anchorEnd pageX 1 "" [] []).
  reflexivity.
Defined.

(** C5 as stated fails: an unmatched [</a>] in front of [pageX] makes the
    later revision return no link at all, although [pageX] alone yields the
    link to [http://y/]; the earlier revision panics on the same input. *)
Lemma C5_counterexample :
  fst (V2.ExtractLinks noUnicode (mkResponse 200 (anchorEnd :: pageX)) 1) = [] /\
  fst (V2.ExtractLinks noUnicode (mkResponse 200 pageX) 1) = [linkY] /\
  fst (V1.ExtractLinks noUnicode (mkResponse 200 (anchorEnd :: pageX)) 1) = None.
Proof. vm_compute. repeat split. Qed.

(** ** [getUrl] and the fetch worker *)

Section Worker.

Variable unicodeLower : string -> string.
Variable http_Get : string -> Response + error.

(** [getUrl] hands back exactly what [http.Get] gave: the status test
    changes neither result. *)
Lemma getUrl_results (u : string) :
  fst (getUrl http_Get u)
  = match http_Get u with
    | inl resp => (Some resp, None)
    | inr err => (None, Some err)
    end.
Proof.
  unfold getUrl. destruct (http_Get u) as [resp|err]; [|reflexivity].
  destruct (StatusCode resp >? 299); reflexivity.
Qed.

(** Later revision: from [getUrl] to its return a worker sends exactly one
    batch, empty after a failed fetch and the extractor's otherwise. *)
Lemma V2_worker_sends_one_batch (link : Link) (fuel : nat) :
  (5 <= fuel)%nat ->
  sends (V2.workerOps unicodeLower http_Get fuel (GFetch link))
  = [V2.batchOf unicodeLower http_Get link].
Proof.
  intros Hf. unfold V2.batchOf.
  do 5 (destruct fuel as [|fuel]; [lia|]).
  cbn [V2.workerOps V2.worker].
  pose proof (getUrl_results (url link)) as Hg.
  destruct (getUrl http_Get (url link)) as [[resp err] lg]. simpl in Hg.
  destruct (http_Get (url link)) as [r|e]; injection Hg as -> ->.
  - cbn [V2.workerOps V2.worker].
    destruct (V2.ExtractLinks unicodeLower r (wrap (depth link + 1))) as [nl lg'].
    cbn [V2.workerOps V2.worker]. destruct fuel; reflexivity.
  - cbn [V2.workerOps V2.worker]. reflexivity.
Qed.

End Worker.

(** C1 on the earlier revision: the worker for [http://y/], whose fetch
    fails, returns after [getUrl] without any send on [frontier], while the
    later revision sends its one empty batch. *)
Theorem C1_earlier_worker_sends_nothing_on_error :
  http_Get_fails exampleWeb "http://y/" /\
  V1.workerOps noUnicode exampleWeb 6 (GFetch linkY) = [OpGetUrl "http://y/"] /\
  sends (V1.workerOps noUnicode exampleWeb 6 (GFetch linkY)) = [] /\
  sends (V2.workerOps noUnicode exampleWeb 6 (GFetch linkY)) = [[]].
Proof. vm_compute. repeat split. eexists; reflexivity. Qed.

(** C3 at a failing input: [http://q/] answers 404.  [getUrl] returns that
    response with a nil error, so both revisions' workers go on to extract
    the links of the error page and send them as their batch. *)
Theorem C3_status_above_299_returns_nil_error :
  fst (getUrl exampleWeb "http://q/") = (Some (mkResponse 404 pageZ), None) /\
  V2.workerOps noUnicode exampleWeb 6 (GFetch linkQ)
  = [OpGetUrl "http://q/"; OpAcquire; OpExtract; OpRelease; OpSend [linkZ2]] /\
  V1.workerOps noUnicode exampleWeb 6 (GFetch linkQ)
  = [OpGetUrl "http://q/"; OpAcquire; OpExtract; OpRelease; OpSend [linkZ2]].
Proof. vm_compute. repeat split. Qed.

(** ** The scheduler: transitions *)

Section Transitions.

Variable unicodeLower : string -> string.
Variable http_Get : string -> Response + error.
Variable maxDepth : Z.

Lemma V2_step_Trans (c : Choice) (s s' : State) :
  V2.step unicodeLower http_Get maxDepth c s = Some s' ->
  V2.Trans unicodeLower http_Get maxDepth s s' /\ panicked s = false.
Proof.
  unfold V2.step. destruct (panicked s) eqn:Hp; [discriminate|].
  intros H. split; [|reflexivity]. destruct c as [|g|g].
  - unfold V2.mainStep in H. destruct (pc s) as [|[|link rest]|] eqn:Hpc;
      try discriminate.
    + destruct (n s >? 0) eqn:Hn; [discriminate|]. injection H as <-.
      apply V2.TReturn; [exact Hpc | lia].
    + injection H as <-. apply V2.TEndBatch. exact Hpc.
    + injection H as <-. apply V2.TVisit. exact Hpc.
  - unfold V2.receiveStep in H. destruct (pc s) eqn:Hpc; try discriminate.
    destruct (goroutines s !! g) as [[| | | |batch|]|] eqn:Hg; try discriminate.
    destruct (n s >? 0) eqn:Hn; [|discriminate]. injection H as <-.
    apply V2.TReceive with (batch := batch); [exact Hpc | lia | exact Hg].
  - unfold V2.goStep in H.
    destruct (goroutines s !! g) as [[link|link resp|link resp|nl|batch|]|] eqn:Hg;
      try discriminate; cbn [V2.worker] in H.
    + pose proof (getUrl_results http_Get (url link)) as Hr.
      destruct (getUrl http_Get (url link)) as [[resp err] lg]. simpl in Hr.
      destruct (http_Get (url link)) as [r|e] eqn:Hw; injection Hr as -> ->;
        injection H as <-.
      * eapply V2.TFetchOk; eauto.
      * eapply V2.TFetchErr; eauto.
    + destruct (requestTokens s <? tokenCap)%nat eqn:Ht; [|discriminate].
      injection H as <-. apply V2.TAcquire; [exact Hg|].
      apply Nat.ltb_lt. exact Ht.
    + destruct (V2.ExtractLinks unicodeLower resp (wrap (depth link + 1)))
        as [nl lg] eqn:He. injection H as <-.
      replace nl with (fst (V2.ExtractLinks unicodeLower resp (wrap (depth link + 1))))
        by (rewrite He; reflexivity).
      apply V2.TExtract. exact Hg.
    + destruct (requestTokens s) as [|k] eqn:Ht; [discriminate|].
      injection H as <-. eapply V2.TRelease; eauto.
Qed.

Lemma V1_step_Trans (c : Choice) (s s' : State) :
  V1.step unicodeLower http_Get maxDepth c s = Some s' ->
  V1.Trans unicodeLower http_Get maxDepth s s' /\ panicked s = false.
Proof.
  unfold V1.step. destruct (panicked s) eqn:Hp; [discriminate|].
  intros H. split; [|reflexivity]. destruct c as [|g|g].
  - unfold V1.mainStep in H. destruct (pc s) as [|[|link rest]|] eqn:Hpc;
      try discriminate.
    + destruct (n s >? 0) eqn:Hn; [discriminate|]. injection H as <-.
      apply V1.TReturn; [exact Hpc | lia].
    + injection H as <-. apply V1.TEndBatch. exact Hpc.
    + injection H as <-. apply V1.TVisit. exact Hpc.
  - unfold V1.receiveStep in H. destruct (pc s) eqn:Hpc; try discriminate.
    destruct (goroutines s !! g) as [[| | | |batch|]|] eqn:Hg; try discriminate.
    destruct (n s >? 0) eqn:Hn; [|discriminate]. injection H as <-.
    apply V1.TReceive with (batch := batch); [exact Hpc | lia | exact Hg].
  - unfold V1.goStep in H.
    destruct (goroutines s !! g) as [[link|link resp|link resp|nl|batch|]|] eqn:Hg;
      try discriminate; cbn [V1.worker] in H.
    + pose proof (getUrl_results http_Get (url link)) as Hr.
      destruct (getUrl http_Get (url link)) as [[resp err] lg]. simpl in Hr.
      destruct (http_Get (url link)) as [r|e] eqn:Hw; injection Hr as -> ->;
        injection H as <-.
      * eapply V1.TFetchOk; eauto.
      * eapply V1.TFetchErr; eauto.
    + destruct (requestTokens s <? tokenCap)%nat eqn:Ht; [|discriminate].
      injection H as <-. apply V1.TAcquire; [exact Hg|].
      apply Nat.ltb_lt. exact Ht.
    + destruct (V1.ExtractLinks unicodeLower resp (wrap (depth link + 1)))
        as [[nl|] lg] eqn:He; injection H as <-.
      * eapply V1.TExtract; eauto.
      * eapply V1.TExtractPanic; eauto.
    + destruct (requestTokens s) as [|k] eqn:Ht; [discriminate|].
      injection H as <-. eapply V1.TRelease; eauto.
Qed.

(** A state property kept by every transition holds along every run. *)
Lemma V2_run_invariant (P : State -> Prop) :
  (forall s s', P s -> panicked s = false ->
                V2.Trans unicodeLower http_Get maxDepth s s' -> P s') ->
  forall sched s s',
    P s -> V2.run unicodeLower http_Get maxDepth sched s = Some s' -> P s'.
Proof.
  intros Hstep sched. induction sched as [|c sched IH]; intros s s' Hs H; simpl in H.
  - injection H as <-. exact Hs.
  - destruct (V2.step unicodeLower http_Get maxDepth c s) as [s1|] eqn:Hc;
      [|discriminate].
    apply V2_step_Trans in Hc as [Ht Hp]. eapply IH; [|exact H]. eauto.
Qed.

Lemma V1_run_invariant (P : State -> Prop) :
  (forall s s', P s -> panicked s = false ->
                V1.Trans unicodeLower http_Get maxDepth s s' -> P s') ->
  forall sched s s',
    P s -> V1.run unicodeLower http_Get maxDepth sched s = Some s' -> P s'.
Proof.
  intros Hstep sched. induction sched as [|c sched IH]; intros s s' Hs H; simpl in H.
  - injection H as <-. exact Hs.
  - destruct (V1.step unicodeLower http_Get maxDepth c s) as [s1|] eqn:Hc;
      [|discriminate].
    apply V1_step_Trans in Hc as [Ht Hp]. eapply IH; [|exact H]. eauto.
Qed.

End Transitions.

(** ** The semaphore [requestTokens] *)

Lemma sum_list_with_insert (f : Goroutine -> nat) (gs : list Goroutine)
    (g : nat) (old new : Goroutine) :
  gs !! g = Some old ->
  (sum_list_with f (<[g := new]> gs) + f old = sum_list_with f gs + f new)%nat.
Proof.
  revert g. induction gs as [|x gs IH]; intros [|g] H; simpl in *; try discriminate.
  - injection H as ->. lia.
  - specialize (IH g H). lia.
Qed.

Lemma count_setGoroutine (f : Goroutine -> nat) (s : State) (g : nat)
    (old new : Goroutine) (lg : list LogEntry) (k : nat) :
  goroutines s !! g = Some old ->
  (count f (setGoroutine s g new lg k) + f old = count f s + f new)%nat.
Proof. intros H. unfold count. simpl. apply sum_list_with_insert. exact H. Qed.

Lemma tokensHeld_init (urls : list string) : tokensHeld (init urls).
Proof. split; [reflexivity | unfold tokenCap; simpl; lia]. Qed.

Ltac count_step :=
  match goal with
  | H : goroutines ?s !! ?g = Some ?old
    |- context [count ?f (setGoroutine ?s ?g ?new ?lg ?k)] =>
      let E := fresh "E" in
      pose proof (count_setGoroutine f s g old new lg k H) as E; simpl in E
  end.

Section Semaphore.

Variable unicodeLower : string -> string.
Variable http_Get : string -> Response + error.
Variable maxDepth : Z.

Lemma V2_visit_goroutines (link : Link) (rest : list Link) (s : State) :
  goroutines (V2.visit maxDepth link rest s) = goroutines s \/
  (goroutines (V2.visit maxDepth link rest s) = goroutines s ++ [GFetch link] /\
   isVisited (visited s) (url link) = false /\ depth link <> maxDepth).
Proof.
  unfold V2.visit. destruct (isVisited _ _); [left; reflexivity|].
  destruct (depth link =? maxDepth) eqn:E; [left; reflexivity|].
  right. repeat split. apply Z.eqb_neq. exact E.
Qed.

Lemma V1_visit_goroutines (link : Link) (rest : list Link) (s : State) :
  goroutines (V1.visit maxDepth link rest s) = goroutines s \/
  (goroutines (V1.visit maxDepth link rest s) = goroutines s ++ [GFetch link] /\
   isVisited (visited s) (url link) = false /\ depth link <> wrap (maxDepth + 1)).
Proof.
  unfold V1.visit. destruct (isVisited _ _); [left; reflexivity|].
  destruct (depth link =? wrap (maxDepth + 1)) eqn:E; [left; reflexivity|].
  right. repeat split. apply Z.eqb_neq. exact E.
Qed.

Lemma V2_visit_tokens (link : Link) (rest : list Link) (s : State) :
  requestTokens (V2.visit maxDepth link rest s) = requestTokens s.
Proof.
  unfold V2.visit. destruct (isVisited _ _); [reflexivity|].
  destruct (depth link =? maxDepth); reflexivity.
Qed.

Lemma V1_visit_tokens (link : Link) (rest : list Link) (s : State) :
  requestTokens (V1.visit maxDepth link rest s) = requestTokens s.
Proof.
  unfold V1.visit. destruct (isVisited _ _); [reflexivity|].
  destruct (depth link =? wrap (maxDepth + 1)); reflexivity.
Qed.

Lemma V2_tokensHeld_step (s s' : State) :
  tokensHeld s -> V2.Trans unicodeLower http_Get maxDepth s s' -> tokensHeld s'.
Proof.
  unfold tokensHeld. intros [He Hc] Ht.
  destruct Ht; try (split; [exact He | exact Hc]);
    try (count_step; simpl in *; unfold tokenCap in *; split; lia).
  - rewrite V2_visit_tokens. unfold count.
    destruct (V2_visit_goroutines link rest s) as [-> | [-> _]];
      [split; [exact He | exact Hc]|].
    rewrite sum_list_with_app. simpl. unfold count in He. split; lia.
  - unfold count in *. simpl.
    pose proof (sum_list_with_insert holdsToken _ _ _ GExit H1) as E.
    simpl in E. split; lia.
Qed.

Lemma V1_tokensHeld_step (s s' : State) :
  tokensHeld s -> V1.Trans unicodeLower http_Get maxDepth s s' -> tokensHeld s'.
Proof.
  unfold tokensHeld. intros [He Hc] Ht.
  destruct Ht; try (split; [exact He | exact Hc]);
    try (count_step; simpl in *; unfold tokenCap in *; split; lia).
  - rewrite V1_visit_tokens. unfold count.
    destruct (V1_visit_goroutines link rest s) as [-> | [-> _]];
      [split; [exact He | exact Hc]|].
    rewrite sum_list_with_app. simpl. unfold count in He. split; lia.
  - unfold count in *. simpl.
    pose proof (sum_list_with_insert holdsToken _ _ _ GExit H1) as E.
    simpl in E. split; lia.
Qed.

Lemma tokensHeld_run (r : Revision) (urls : list string) (sched : list Choice)
    (s : State) :
  run r unicodeLower http_Get maxDepth sched (init urls) = Some s -> tokensHeld s.
Proof.
  destruct r; simpl; intros H.
  - eapply V1_run_invariant; [|apply tokensHeld_init|exact H].
    intros s1 s2 H1 _ Ht. eapply V1_tokensHeld_step; eauto.
  - eapply V2_run_invariant; [|apply tokensHeld_init|exact H].
    intros s1 s2 H1 _ Ht. eapply V2_tokensHeld_step; eauto.
Qed.

Lemma extracting_le_holdsToken (gs : list Goroutine) :
  (sum_list_with extracting gs <= sum_list_with holdsToken gs)%nat.
Proof.
  induction gs as [|g gs IH]; simpl; [lia|]. destruct g; simpl; lia.
Qed.

End Semaphore.

(** C10. Along every run of either revision at most ten goroutines are
    inside [ExtractLinks] at the same time (each of them holds one of the at
    most ten elements of [requestTokens]), whatever the number of goroutines;
    and a goroutine standing at [getUrl] can always go ahead, whatever the
    channel holds: the fetch itself is not throttled. *)
Theorem C10_at_most_ten_extractions
    (r : Revision) (unicodeLower : string -> string)
    (http_Get : string -> Response + error) (maxDepth : Z)
    (urls : list string) (sched : list Choice) (s : State) :
  run r unicodeLower http_Get maxDepth sched (init urls) = Some s ->
  (count extracting s <= 10)%nat /\
  (forall g link,
      goroutines s !! g = Some (GFetch link) -> panicked s = false ->
      exists s', run r unicodeLower http_Get maxDepth [Go g] s = Some s' /\
                 requestTokens s' = requestTokens s).
Proof.
  intros H. apply tokensHeld_run in H as [He Hc]. split.
  - unfold count in *. pose proof (extracting_le_holdsToken (goroutines s)).
    unfold tokenCap in Hc. lia.
  - intros g link Hg Hp.
    destruct r; simpl; [unfold V1.step, V1.goStep | unfold V2.step, V2.goStep];
      rewrite Hp, Hg; simpl;
      destruct (getUrl http_Get (url link)) as [[resp err] lg];
      destruct err, resp; eexists; split; reflexivity.
Qed.

Lemma C10_witness :
  (count extracting wideState <= 10)%nat /\
  (forall g link,
      goroutines wideState !! g = Some (GFetch link) -> panicked wideState = false ->
      exists s', run Later noUnicode wideWeb 2 [Go g] wideState = Some s' /\
                 requestTokens s' = requestTokens wideState).
Proof.
  apply (C10_at_most_ten_extractions Later noUnicode wideWeb 2
           ["http://x/"%string] wideSchedule wideState).
  vm_compute. reflexivity.
Defined.

(** In that state eleven fetches are in flight and no token is taken. *)
Example eleven_fetches_in_flight :
  count fetching wideState = 11%nat /\ requestTokens wideState = 0%nat /\
  count extracting wideState = 0%nat.
Proof. vm_compute. repeat split. Qed.

(** ** Depth of the links in flight and in the result *)

Lemma wrap_small (z : Z) : - 2 ^ 63 <= z < 2 ^ 63 -> wrap z = z.
Proof. intros H. unfold wrap. rewrite Z.mod_small; lia. Qed.

Lemma initialLinks_map (urls : list string) :
  initialLinks urls = map (fun u => mkLink (strings.TrimSpace u) u 0) urls.
Proof.
  unfold initialLinks.
  assert (G : forall acc,
             fold_left (fun il u => il ++ [mkLink (strings.TrimSpace u) u 0]) urls acc
             = acc ++ map (fun u => mkLink (strings.TrimSpace u) u 0) urls).
  { induction urls as [|u urls IH]; intros acc; simpl.
    - rewrite app_nil_r. reflexivity.
    - rewrite IH, <- app_assoc. reflexivity. }
  apply (G []).
Qed.

Lemma NewLink_depth (tag : Token) (txt : string) (d : Z) :
  depth (NewLink tag txt d) = d.
Proof.
  unfold NewLink.
  assert (G : forall attrs l, depth l = d ->
             depth (fold_left
                      (fun link attr =>
                         if String.eqb (Key attr) atom_Href_String
                         then match link with
                              | mkLink _ t d0 => mkLink (strings.TrimSpace (Val attr)) t d0
                              end
                         else link) attrs l) = d).
  { induction attrs as [|a attrs IH]; intros l Hl; simpl; [exact Hl|].
    apply IH. destruct (String.eqb _ _); [destruct l; exact Hl | exact Hl]. }
  apply G. reflexivity.
Qed.

Section Depth.

Variable unicodeLower : string -> string.
Variable http_Get : string -> Response + error.
Variable maxDepth : Z.

Lemma V2_scan_depth (P : Link -> Prop) (d : Z) :
  (forall l, depth l = d -> P l) ->
  forall page start txt links lg,
    Forall P links ->
    Forall P (fst (V2.scan unicodeLower page d start txt links lg)).
Proof.
  intros HP. induction page as [|token page IH]; intros start txt links lg Hl;
    simpl; [exact Hl|].
  destruct (TokType token) eqn:Ety; try exact Hl;
    destruct (N.eqb (DataAtom token) atom_A); try (apply IH; exact Hl).
  - destruct (0 <? List.length (Attr token))%nat; apply IH; exact Hl.
  - destruct start as [st|]; [|exact Hl].
    destruct (Valid unicodeLower (NewLink st txt d)); apply IH; [|exact Hl].
    apply Forall_app; split; [exact Hl|].
    constructor; [apply HP, NewLink_depth | constructor].
Qed.

Lemma V1_scan_depth (P : Link -> Prop) (d : Z) :
  (forall l, depth l = d -> P l) ->
  forall page start txt links lg ls,
    Forall P links ->
    fst (V1.scan unicodeLower page d start txt links lg) = Some ls ->
    Forall P ls.
Proof.
  intros HP. induction page as [|token page IH]; intros start txt links lg ls Hl;
    simpl.
  - intros [= <-]. exact Hl.
  - destruct (TokType token) eqn:Ety; try (intros [= <-]; exact Hl);
      destruct (N.eqb (DataAtom token) atom_A); try (apply IH; exact Hl).
    + destruct (0 <? List.length (Attr token))%nat; apply IH; exact Hl.
    + destruct start as [st|]; [|discriminate].
      destruct (Valid unicodeLower (NewLink st txt d)); apply IH; [|exact Hl].
      apply Forall_app; split; [exact Hl|].
      constructor; [apply HP, NewLink_depth | constructor].
Qed.

Hypothesis maxDepth_int : 0 <= maxDepth <= maxInt.

Lemma depthInv2_init (urls : list string) : depthInv2 maxDepth (init urls).
Proof.
  unfold depthInv2. simpl. repeat split; try constructor; [|constructor].
  rewrite initialLinks_map. apply Forall_map. apply Forall_forall.
  intros u _. unfold depthOk. simpl. lia.
Qed.

Lemma depthInv1_init (urls : list string) : depthInv1 maxDepth (init urls).
Proof.
  unfold depthInv1. simpl. repeat split; try constructor; [|constructor].
  rewrite initialLinks_map. apply Forall_map. apply Forall_forall.
  intros u _. left. unfold depthOk. simpl. lia.
Qed.

Lemma depthInv2_step (s s' : State) :
  depthInv2 maxDepth s -> V2.Trans unicodeLower http_Get maxDepth s s' ->
  depthInv2 maxDepth s'.
Proof.
  unfold depthInv2, maxInt in *. intros (Hr & Hb & Hg) Ht.
  destruct Ht; simpl; try rewrite H in Hb;
    try (pose proof (Forall_lookup_1 _ _ _ _ Hg H) as Hold; simpl in Hold);
    try (repeat split; try assumption; try apply Forall_insert; simpl;
         solve [assumption | constructor | trivial]).
  - (* one link of the batch *)
    inversion Hb as [|? ? Hl Hrest]; subst. unfold V2.visit.
    destruct (isVisited _ _); simpl; [repeat split; assumption|].
    destruct (depth link =? maxDepth) eqn:E; simpl.
    + repeat split; try assumption. apply Forall_app; split; [assumption|].
      constructor; [assumption | constructor].
    + apply Z.eqb_neq in E. unfold depthOk in Hl.
      repeat split; try assumption.
      * apply Forall_app; split; [assumption|]. constructor; [assumption | constructor].
      * apply Forall_app; split; [assumption|]. constructor; [simpl; lia | constructor].
  - (* receive *)
    pose proof (Forall_lookup_1 _ _ _ _ Hg H1) as Hold. simpl in Hold.
    repeat split; try assumption. apply Forall_insert; simpl; trivial.
  - (* extraction *)
    repeat split; try assumption. apply Forall_insert; [assumption|]. simpl.
    apply V2_scan_depth with (d := wrap (depth link + 1)); [|constructor].
    intros l Hl. unfold depthOk. rewrite Hl, wrap_small; lia.
Qed.

Lemma depthInv1_step (s s' : State) :
  depthInv1 maxDepth s -> V1.Trans unicodeLower http_Get maxDepth s s' ->
  depthInv1 maxDepth s'.
Proof.
  unfold depthInv1, maxInt in *. intros (Hr & Hb & Hg) Ht.
  destruct Ht; simpl; try rewrite H in Hb;
    try (pose proof (Forall_lookup_1 _ _ _ _ Hg H) as Hold; simpl in Hold);
    try (repeat split; try assumption; try apply Forall_insert; simpl;
         solve [assumption | constructor | trivial]).
  - (* one link of the batch *)
    inversion Hb as [|? ? Hl Hrest]; subst. unfold V1.visit.
    destruct (isVisited _ _); simpl; [repeat split; assumption|].
    destruct (depth link =? wrap (maxDepth + 1)) eqn:E; simpl.
    + repeat split; try assumption. constructor.
    + apply Z.eqb_neq in E. destruct Hl as [Hl | Hl]; [|contradiction].
      repeat split; try assumption.
      * apply Forall_app; split; [assumption|]. constructor; [assumption | constructor].
      * apply Forall_app; split; [assumption|]. constructor; [exact Hl | constructor].
  - (* receive *)
    pose proof (Forall_lookup_1 _ _ _ _ Hg H1) as Hold. simpl in Hold.
    repeat split; try assumption. apply Forall_insert; simpl; trivial.
  - (* extraction *)
    repeat split; try assumption. apply Forall_insert; [assumption|]. simpl.
    pose proof (V1_scan_depth (inFlightOk maxDepth) (wrap (depth link + 1))) as HS.
    eapply HS; [| constructor | unfold V1.ExtractLinks in H0; rewrite H0; reflexivity].
    intros l Hl. unfold inFlightOk, depthOk in *. rewrite Hl.
    destruct (Z.eq_dec (depth link) maxDepth) as [-> | Hne]; [right; reflexivity|].
    left. rewrite wrap_small; lia.
Qed.

Lemma depth_bound_run (r : Revision) (urls : list string) (sched : list Choice)
    (s : State) :
  run r unicodeLower http_Get maxDepth sched (init urls) = Some s ->
  Forall (depthOk maxDepth) (res s).
Proof.
  destruct r; simpl; intros H.
  - cut (depthInv1 maxDepth s); [intros (Hr & _); exact Hr|].
    eapply V1_run_invariant; [|apply depthInv1_init|exact H].
    intros s1 s2 H1 _ Ht. eapply depthInv1_step; eauto.
  - cut (depthInv2 maxDepth s); [intros (Hr & _); exact Hr|].
    eapply V2_run_invariant; [|apply depthInv2_init|exact H].
    intros s1 s2 H1 _ Ht. eapply depthInv2_step; eauto.
Qed.

End Depth.

(** C7. Whatever the schedule, every link of the sequence [crawler] returns
    has a depth between 0 and [maxDepth], in both revisions. *)
Theorem C7_depth_bound
    (r : Revision) (unicodeLower : string -> string)
    (http_Get : string -> Response + error) (maxDepth : Z)
    (urls : list string) (sched : list Choice) (result : list Link) (l : Link) :
  0 <= maxDepth <= maxInt ->
  crawler r unicodeLower http_Get maxDepth sched urls = Some result ->
  In l result ->
  0 <= depth l <= maxDepth.
Proof.
  intros Hd Hc Hl.
  assert (Hrun : exists s, run r unicodeLower http_Get maxDepth sched (init urls) = Some s
                           /\ res s = result).
  { destruct r; simpl in *; [unfold V1.crawler in Hc | unfold V2.crawler in Hc];
      match type of Hc with
      | match ?x with _ => _ end = _ => destruct x as [s|] eqn:E; [|discriminate]
      end; destruct (pc s); try discriminate; injection Hc as <-; eauto. }
  destruct Hrun as (s & Hs & <-).
  pose proof (depth_bound_run unicodeLower http_Get maxDepth Hd r urls sched s Hs) as HF.
  rewrite List.Forall_forall in HF. apply HF. exact Hl.
Qed.

Lemma C7_witness : 0 <= depth linkY <= 2.
Proof.
  apply (C7_depth_bound Later noUnicode exampleWeb 2 ["http://x/"%string]
           scheduleXY [seedX; linkY] linkY).
  - unfold maxInt. lia.
  - vm_compute. reflexivity.
  - right. left. reflexivity.
Defined.

(** ** Deduplication and first discovery *)

Lemma isVisited_insert (v : gmap string bool) (u u' : string) :
  isVisited (<[u := true]> v) u' = if decide (u = u') then true else isVisited v u'.
Proof.
  unfold isVisited. rewrite lookup_insert. destruct (decide (u = u')); reflexivity.
Qed.

Lemma firstSeen_app (u : string) (h1 h2 : list Link) :
  firstSeen u (h1 ++ h2)
  = match firstSeen u h1 with Some l => Some l | None => firstSeen u h2 end.
Proof.
  unfold firstSeen. induction h1 as [|x h1 IH]; simpl; [reflexivity|].
  destruct (String.eqb (url x) u); [reflexivity | exact IH].
Qed.

Lemma firstSeen_Some (u : string) (h : list Link) (l : Link) :
  firstSeen u h = Some l -> In l h /\ url l = u.
Proof.
  unfold firstSeen. intros H. apply find_some in H as [Hi He].
  split; [exact Hi | apply String.eqb_eq; exact He].
Qed.

Lemma firstSeen_None (u : string) (h : list Link) :
  (forall l, In l h -> url l <> u) -> firstSeen u h = None.
Proof.
  intros H. unfold firstSeen. destruct (find _ h) as [l|] eqn:E; [|reflexivity].
  apply find_some in E as [Hi He]. apply String.eqb_eq in He.
  exfalso. exact (H l Hi He).
Qed.

(** Accepting [link], not visited so far, keeps the invariant. *)
Lemma dedupInv_accept (h : list Link) (s : State) (link : Link) (res' : list Link) :
  dedupInv h s ->
  isVisited (visited s) (url link) = false ->
  res' = res s \/ res' = res s ++ [link] ->
  NoDup (map url res') /\
  (forall l, In l res' -> firstSeen (url l) (h ++ [link]) = Some l) /\
  (forall l, In l (h ++ [link]) ->
             isVisited (<[url link := true]> (visited s)) (url l) = true).
Proof.
  intros (Hn & Hf & Hv) Hnew Hres.
  assert (Hfresh : forall l, In l h -> url l <> url link).
  { intros l Hl E. specialize (Hv l Hl). rewrite E in Hv. congruence. }
  assert (Hold : forall l, In l (res s) -> firstSeen (url l) (h ++ [link]) = Some l).
  { intros l Hl. rewrite firstSeen_app, (Hf l Hl). reflexivity. }
  assert (Hvis : forall l, In l (h ++ [link]) ->
                   isVisited (<[url link := true]> (visited s)) (url l) = true).
  { intros l Hl. rewrite isVisited_insert.
    destruct (decide (url link = url l)); [reflexivity|].
    apply in_app_or in Hl as [Hl | [<- | []]]; [apply Hv; exact Hl | congruence]. }
  destruct Hres as [-> | ->]; (split; [|split; [|exact Hvis]]).
  - exact Hn.
  - exact Hold.
  - rewrite map_app. simpl. apply NoDup_app. split; [exact Hn|]. split.
    + intros u Hu ->%list_elem_of_singleton.
      apply list_elem_of_In, in_map_iff in Hu as (l & Hl & Hin).
      apply Hf, firstSeen_Some in Hin as [Hin _]. exact (Hfresh l Hin Hl).
    + apply NoDup_singleton.
  - intros l Hl. apply in_app_or in Hl as [Hl | [<- | []]]; [apply Hold; exact Hl|].
    rewrite firstSeen_app, (firstSeen_None _ _ Hfresh). unfold firstSeen. simpl.
    rewrite String.eqb_refl. reflexivity.
Qed.

(** Skipping [link], visited already, keeps the invariant. *)
Lemma dedupInv_skip (h : list Link) (s s' : State) (link : Link) :
  dedupInv h s ->
  isVisited (visited s) (url link) = true ->
  visited s' = visited s -> res s' = res s ->
  dedupInv (h ++ [link]) s'.
Proof.
  intros (Hn & Hf & Hv) Hold Ev Er. unfold dedupInv. rewrite Ev, Er.
  split; [exact Hn|]. split.
  - intros l Hl. rewrite firstSeen_app, (Hf l Hl). reflexivity.
  - intros l Hl. apply in_app_or in Hl as [Hl | [<- | []]]; [apply Hv; exact Hl | exact Hold].
Qed.

Lemma dedupInv_frame (h : list Link) (s s' : State) :
  dedupInv h s -> visited s' = visited s -> res s' = res s -> dedupInv h s'.
Proof. unfold dedupInv. intros H -> ->. exact H. Qed.

Section Dedup.

Variable unicodeLower : string -> string.
Variable http_Get : string -> Response + error.
Variable maxDepth : Z.

(** Only the range loop touches [visited] and [res]. *)
Lemma V2_step_ranged (c : Choice) (s s' : State) :
  V2.step unicodeLower http_Get maxDepth c s = Some s' ->
  (exists link rest, ranged c s = [link] /\ s' = V2.visit maxDepth link rest s) \/
  (ranged c s = [] /\ visited s' = visited s /\ res s' = res s).
Proof.
  unfold V2.step. destruct (panicked s); [discriminate|]. destruct c as [|g|g].
  - unfold V2.mainStep, ranged. destruct (pc s) as [|[|link rest]|]; try discriminate.
    + destruct (n s >? 0); [discriminate|]. intros [= <-]. right. auto.
    + intros [= <-]. right. auto.
    + intros [= <-]. left. eauto.
  - unfold V2.receiveStep, ranged. destruct (pc s); try discriminate.
    destruct (goroutines s !! g) as [[| | | | |]|]; try discriminate.
    destruct (n s >? 0); [|discriminate]. intros [= <-]. right. auto.
  - unfold V2.goStep, ranged.
    destruct (goroutines s !! g) as [st|]; [|discriminate].
    destruct (V2.worker unicodeLower http_Get st) as [[[op st'] lg]|]; [|discriminate].
    destruct op; try discriminate; try (intros [= <-]; right; auto).
    + destruct (requestTokens s <? tokenCap)%nat; [|discriminate].
      intros [= <-]. right. auto.
    + destruct (requestTokens s); [discriminate|]. intros [= <-]. right. auto.
Qed.

Lemma V1_step_ranged (c : Choice) (s s' : State) :
  V1.step unicodeLower http_Get maxDepth c s = Some s' ->
  (exists link rest, ranged c s = [link] /\ s' = V1.visit maxDepth link rest s) \/
  (ranged c s = [] /\ visited s' = visited s /\ res s' = res s).
Proof.
  unfold V1.step. destruct (panicked s); [discriminate|]. destruct c as [|g|g].
  - unfold V1.mainStep, ranged. destruct (pc s) as [|[|link rest]|]; try discriminate.
    + destruct (n s >? 0); [discriminate|]. intros [= <-]. right. auto.
    + intros [= <-]. right. auto.
    + intros [= <-]. left. eauto.
  - unfold V1.receiveStep, ranged. destruct (pc s); try discriminate.
    destruct (goroutines s !! g) as [[| | | | |]|]; try discriminate.
    destruct (n s >? 0); [|discriminate]. intros [= <-]. right. auto.
  - unfold V1.goStep, ranged.
    destruct (goroutines s !! g) as [st|]; [|discriminate].
    destruct (V1.worker unicodeLower http_Get st) as [[[op st'] lg]|]; [|discriminate].
    destruct op; try discriminate; try (intros [= <-]; right; auto).
    + destruct (requestTokens s <? tokenCap)%nat; [|discriminate].
      intros [= <-]. right. auto.
    + destruct (requestTokens s); [discriminate|]. intros [= <-]. right. auto.
Qed.

Lemma V2_dedupInv_visit (h : list Link) (s : State) (link : Link) (rest : list Link) :
  dedupInv h s -> dedupInv (h ++ [link]) (V2.visit maxDepth link rest s).
Proof.
  intros Hi. unfold V2.visit.
  destruct (isVisited (visited s) (url link)) eqn:Hv.
  - eapply dedupInv_skip; eauto.
  - destruct (depth link =? maxDepth); unfold dedupInv; simpl;
      eapply dedupInv_accept; eauto.
Qed.

Lemma V1_dedupInv_visit (h : list Link) (s : State) (link : Link) (rest : list Link) :
  dedupInv h s -> dedupInv (h ++ [link]) (V1.visit maxDepth link rest s).
Proof.
  intros Hi. unfold V1.visit.
  destruct (isVisited (visited s) (url link)) eqn:Hv.
  - eapply dedupInv_skip; eauto.
  - destruct (depth link =? wrap (maxDepth + 1)); unfold dedupInv; simpl;
      eapply dedupInv_accept; eauto.
Qed.

Lemma V2_dedupInv_run (sched : list Choice) : forall h s s',
  dedupInv h s ->
  V2.run unicodeLower http_Get maxDepth sched s = Some s' ->
  dedupInv (h ++ V2.history unicodeLower http_Get maxDepth sched s) s'.
Proof.
  induction sched as [|c sched IH]; intros h s s' Hi H; simpl in *.
  - injection H as <-. rewrite app_nil_r. exact Hi.
  - destruct (V2.step unicodeLower http_Get maxDepth c s) as [s1|] eqn:Hc;
      [|discriminate].
    rewrite app_assoc. apply IH; [|exact H].
    destruct (V2_step_ranged c s s1 Hc) as [(link & rest & -> & ->) | (-> & Ev & Er)].
    + apply V2_dedupInv_visit. exact Hi.
    + rewrite app_nil_r. eapply dedupInv_frame; eauto.
Qed.

Lemma V1_dedupInv_run (sched : list Choice) : forall h s s',
  dedupInv h s ->
  V1.run unicodeLower http_Get maxDepth sched s = Some s' ->
  dedupInv (h ++ V1.history unicodeLower http_Get maxDepth sched s) s'.
Proof.
  induction sched as [|c sched IH]; intros h s s' Hi H; simpl in *.
  - injection H as <-. rewrite app_nil_r. exact Hi.
  - destruct (V1.step unicodeLower http_Get maxDepth c s) as [s1|] eqn:Hc;
      [|discriminate].
    rewrite app_assoc. apply IH; [|exact H].
    destruct (V1_step_ranged c s s1 Hc) as [(link & rest & -> & ->) | (-> & Ev & Er)].
    + apply V1_dedupInv_visit. exact Hi.
    + rewrite app_nil_r. eapply dedupInv_frame; eauto.
Qed.

Lemma dedupInv_init (urls : list string) : dedupInv [] (init urls).
Proof.
  unfold dedupInv. simpl. split; [apply NoDup_nil; trivial|].
  split; intros l [].
Qed.

End Dedup.

(** C8. In the sequence [crawler] returns, in either revision and under
    every schedule, no two links have the same url, and each link is the
    first one with its url that the loop of [crawler] came across: its depth
    is the depth of that first discovery. *)
Theorem C8_no_duplicate_url_first_discovery
    (r : Revision) (unicodeLower : string -> string)
    (http_Get : string -> Response + error) (maxDepth : Z)
    (urls : list string) (sched : list Choice) (result : list Link) :
  crawler r unicodeLower http_Get maxDepth sched urls = Some result ->
  NoDup (map url result) /\
  (forall l, In l result ->
     firstSeen (url l) (history r unicodeLower http_Get maxDepth sched (init urls))
     = Some l).
Proof.
  intros Hc.
  assert (Hrun : exists s, run r unicodeLower http_Get maxDepth sched (init urls) = Some s
                           /\ res s = result).
  { destruct r; simpl in *; [unfold V1.crawler in Hc | unfold V2.crawler in Hc];
      match type of Hc with
      | match ?x with _ => _ end = _ => destruct x as [s|] eqn:E; [|discriminate]
      end; destruct (pc s); try discriminate; injection Hc as <-; eauto. }
  destruct Hrun as (s & Hs & <-).
  assert (Hi : dedupInv (history r unicodeLower http_Get maxDepth sched (init urls)) s).
  { destruct r; simpl in *.
    - apply (V1_dedupInv_run unicodeLower http_Get maxDepth sched [] (init urls) s
               (dedupInv_init urls) Hs).
    - apply (V2_dedupInv_run unicodeLower http_Get maxDepth sched [] (init urls) s
               (dedupInv_init urls) Hs). }
  destruct Hi as (Hn & Hf & _). split; assumption.
Qed.

Lemma C8_witness :
  NoDup (map url [seedX; linkY]) /\
  (forall l, In l [seedX; linkY] ->
     firstSeen (url l)
       (history Later noUnicode exampleWeb 2 scheduleXY (init ["http://x/"%string]))
     = Some l).
Proof.
  apply (C8_no_duplicate_url_first_discovery Later noUnicode exampleWeb 2
           ["http://x/"%string] scheduleXY [seedX; linkY]).
  vm_compute. reflexivity.
Defined.

(** First discovery is a matter of the order in which batches arrive:
    the same crawl records [http://z/] at depth 2 or at depth 3. *)
Example first_discovery_follows_arrival_order :
  (exists others,
      crawler Later noUnicode raceWeb 3 scheduleBFirst ["http://x/"%string]
      = Some (others ++ [mkLink "http://z/" "Z" 2])) /\
  (exists others,
      crawler Later noUnicode raceWeb 3 scheduleBLast ["http://x/"%string]
      = Some (others ++ [mkLink "http://z/" "Z" 3])).
Proof.
  split; eexists; vm_compute;
    match goal with
    | |- Some [?a; ?b; ?c; ?d; ?e] = _ =>
        instantiate (1 := [a; b; c; d]); reflexivity
    end.
Qed.

(** ** The pending counter *)

(** C2 at a failing input: [crawler] of the later revision on two seeds with
    [maxDepth = 0].  [n] starts at 2 although the seed goroutine is the only
    pending sender.  Once its batch is handled, [n] is 1, no goroutine is left
    that could send, and no step is possible: the loop waits on [<-frontier]
    for ever instead of returning. *)
Theorem C2_counter_overcounts_seed_batch :
  n (init twoSeeds) = 2 /\ count live (init twoSeeds) = 1%nat /\
  run Later noUnicode exampleWeb 0 [Receive 0; Main; Main; Main]%nat (init twoSeeds)
  = Some twoSeedState /\
  n twoSeedState = 1 /\ pc twoSeedState = LoopHead /\
  count live twoSeedState = 0%nat /\
  map url (res twoSeedState) = twoSeeds /\
  (forall c, run Later noUnicode exampleWeb 0 [c] twoSeedState = None).
Proof.
  do 7 (split; [vm_compute; reflexivity|]).
  intros c. destruct c as [|[|g]|[|g]]; vm_compute; reflexivity.
Qed.

(** Earlier revision, same seeds: after the seed batch [n] is 3 with two
    workers pending, and [crawler] returns with [n = -1] while the second
    worker has not delivered. *)
Example V1_returns_with_a_pending_worker :
  let s := stateAfter Earlier exampleWeb 0 [Receive 0; Main; Main; Main]%nat
             (init twoSeeds) in
  let s' := stateAfter Earlier exampleWeb 0 scheduleTwoSeedsEarlier (init twoSeeds) in
  n s = 3 /\ count live s = 2%nat /\
  pc s' = Returned /\ n s' = -1 /\ count live s' = 1%nat.
Proof. vm_compute. repeat split. Qed.

(** ** Links at the depth bound *)

(** Later revision: a link at [maxDepth] that is not visited yet is appended
    to the result, and neither is a goroutine started nor [n] incremented. *)
Lemma V2_link_at_maxDepth (maxDepth : Z) (link : Link) (rest : list Link) (s : State) :
  isVisited (visited s) (url link) = false ->
  depth link = maxDepth ->
  res (V2.visit maxDepth link rest s) = res s ++ [link] /\
  goroutines (V2.visit maxDepth link rest s) = goroutines s /\
  n (V2.visit maxDepth link rest s) = n s /\
  pc (V2.visit maxDepth link rest s) = InBatch rest.
Proof.
  intros Hv Hd. unfold V2.visit. rewrite Hv.
  destruct (depth link =? maxDepth) eqn:E; [simpl; auto|].
  apply Z.eqb_neq in E. contradiction.
Qed.

(** Later revision, one seed, [maxDepth = 0]: the crawl returns the seed
    link and the seed goroutine is the only one there ever was. *)
Example V2_scenario_A :
  crawler Later noUnicode exampleWeb 0 [Receive 0; Main; Main; Main]%nat
          ["http://x/"%string] = Some [seedX] /\
  goroutines (stateAfter Later exampleWeb 0 [Receive 0; Main; Main; Main]%nat
                (init ["http://x/"%string])) = [GExit].
Proof. vm_compute. split; reflexivity. Qed.

(** Later revision, one seed, [maxDepth = 1]: the page of the seed is
    parsed, its valid link is recorded at depth 1 and not expanded, and the
    javascript link is left out. *)
Example V2_scenario_B :
  crawler Later noUnicode exampleWeb 1
          ([Receive 0; Main; Main]%nat ++ runWorker 1 ++ [Main; Main; Main])
          ["http://x/"%string]
  = Some [seedX; linkY].
Proof. vm_compute. reflexivity. Qed.

(** C4 at a failing input: [crawler] of the earlier revision on the single
    seed [http://x/] with [maxDepth = 0].  The seed link, whose depth is
    [maxDepth], is appended and a worker is started for it; the page is
    downloaded and parsed, and the crawl ends only when the first link of
    depth 1 comes back. *)
Theorem C4_earlier_revision_expands_link_at_maxDepth :
  run Earlier noUnicode exampleWeb 0 [Receive 0; Main]%nat (init ["http://x/"%string])
  = Some seedAcceptedState /\
  res seedAcceptedState = [seedX] /\
  goroutines seedAcceptedState = [GExit; GFetch seedX] /\
  n seedAcceptedState = 2 /\
  crawler Earlier noUnicode exampleWeb 0 scheduleSeedOnly ["http://x/"%string]
  = Some [seedX] /\
  In (Logf Debug "Downloading %s" [AStr "http://x/"])
     (logged (stateAfter Earlier exampleWeb 0 scheduleSeedOnly
                (init ["http://x/"%string]))).
Proof.
  do 5 (split; [vm_compute; reflexivity|]).
  vm_compute. right. left. reflexivity.
Qed.

(** ** Termination of the later revision *)

Lemma wrap_wrap (a b : Z) : wrap (wrap a + b) = wrap (a + b).
Proof.
  unfold wrap. f_equal.
  replace ((a + 2 ^ 63) mod 2 ^ 64 - 2 ^ 63 + b + 2 ^ 63)
    with ((a + 2 ^ 63) mod 2 ^ 64 + b) by lia.
  rewrite Zplus_mod_idemp_l. f_equal. lia.
Qed.

Lemma sum_list_with_ext_in {A} (f g : A -> nat) (l : list A) :
  (forall x, In x l -> f x = g x) -> sum_list_with f l = sum_list_with g l.
Proof.
  induction l as [|x l IH]; intros H; simpl; [reflexivity|].
  rewrite (H x), IH; [reflexivity | | left; reflexivity].
  intros y Hy. apply H. right. exact Hy.
Qed.

Lemma sum_list_with_pos (f : Goroutine -> nat) (gs : list Goroutine) :
  (0 < sum_list_with f gs)%nat ->
  exists g st, gs !! g = Some st /\ (0 < f st)%nat.
Proof.
  induction gs as [|x gs IH]; simpl; [lia|]. intros H.
  destruct (f x) as [|k] eqn:E.
  - destruct IH as (g & st & Hg & Hf); [lia|]. exists (S g), st. auto.
  - exists 0%nat, x. split; [reflexivity | lia].
Qed.

Section Termination.

Variable unicodeLower : string -> string.
Variable http_Get : string -> Response + error.
Variable maxDepth : Z.
Hypothesis maxDepth_int : 0 <= maxDepth <= maxInt.

Local Abbreviation cost' := (cost unicodeLower http_Get maxDepth).
Local Abbreviation batchCost' := (batchCost unicodeLower http_Get maxDepth).
Local Abbreviation stepsLeft' := (stepsLeft unicodeLower http_Get maxDepth).

Lemma V2_batchOf_depth (link : Link) :
  Forall (fun l => depth l = wrap (depth link + 1))
         (V2.batchOf unicodeLower http_Get link).
Proof.
  unfold V2.batchOf. destruct (http_Get (url link)) as [resp|err]; [|constructor].
  apply V2_scan_depth with (d := wrap (depth link + 1)); [auto | constructor].
Qed.

(** A link below the bound costs its visit and all its worker causes. *)
Lemma cost_expanded (link : Link) :
  0 <= depth link < maxDepth ->
  cost' link = (7 + batchCost' (V2.batchOf unicodeLower http_Get link))%nat.
Proof.
  intros Hd. unfold cost, level, maxInt in *.
  replace (Z.to_nat (maxDepth - depth link))
    with (S (Z.to_nat (maxDepth - depth link - 1))) by lia.
  cbn [work]. f_equal. unfold batchCost. apply sum_list_with_ext_in.
  intros l Hl. pose proof (V2_batchOf_depth link) as HF.
  rewrite List.Forall_forall in HF. specialize (HF l Hl).
  unfold cost, level. rewrite HF, wrap_small by lia.
  f_equal. lia.
Qed.

Lemma cost_pos (link : Link) : (1 <= cost' link)%nat.
Proof. unfold cost. destruct (level maxDepth link); simpl; lia. Qed.

Ltac cost_step :=
  match goal with
  | H : goroutines ?s !! ?g = Some ?old |- _ =>
      let E := fresh "E" in
      pose proof (sum_list_with_insert
                    (goroutineCost unicodeLower http_Get maxDepth)
                    (goroutines s) g old) as E;
      specialize (fun new => E new H)
  end.

(** Every transition uses up at least one of the steps left. *)
Lemma V2_stepsLeft_decreases (s s' : State) :
  depthInv2 maxDepth s ->
  V2.Trans unicodeLower http_Get maxDepth s s' ->
  (stepsLeft' s' < stepsLeft' s)%nat.
Proof.
  intros (Hr & Hb & Hg) Ht. unfold stepsLeft.
  destruct Ht; simpl; try rewrite H; simpl; try lia.
  - (* one link of the batch *)
    rewrite H in Hb. inversion Hb as [|? ? Hl Hrest]; subst.
    pose proof (cost_pos link) as Hc. unfold V2.visit.
    destruct (isVisited _ _); simpl; [lia|].
    destruct (depth link =? maxDepth) eqn:E; simpl; [lia|].
    apply Z.eqb_neq in E. unfold depthOk in Hl.
    rewrite sum_list_with_app. simpl.
    rewrite (cost_expanded link) by lia. unfold batchCost. lia.
  - (* receive *)
    cost_step. specialize (E GExit). simpl in E. unfold batchCost in *. lia.
  - (* failed fetch *)
    cost_step. specialize (E (GSend [])). simpl in E.
    unfold V2.batchOf in E. rewrite H0 in E. simpl in E. lia.
  - (* fetch *)
    cost_step. specialize (E (GAcquire link resp)). simpl in E.
    unfold V2.batchOf in E. rewrite H0 in E. lia.
  - cost_step. specialize (E (GExtract link resp)). simpl in E. lia.
  - cost_step.
    specialize (E (GRelease (fst (V2.ExtractLinks unicodeLower resp
                                    (wrap (depth link + 1)))))).
    simpl in E. lia.
  - cost_step. specialize (E (GSend newLinks)). simpl in E. lia.
Qed.

End Termination.

Section Progress.

Variable unicodeLower : string -> string.
Variable http_Get : string -> Response + error.
Variable maxDepth : Z.
Hypothesis maxDepth_int : 0 <= maxDepth <= maxInt.

Local Abbreviation stepsLeft' := (stepsLeft unicodeLower http_Get maxDepth).
Local Abbreviation run2 := (V2.run unicodeLower http_Get maxDepth).
Local Abbreviation step2 := (V2.step unicodeLower http_Get maxDepth).

(** The later revision never panics. *)
Lemma V2_no_panic (sched : list Choice) (s s' : State) :
  panicked s = false -> run2 sched s = Some s' -> panicked s' = false.
Proof.
  apply (V2_run_invariant unicodeLower http_Get maxDepth
           (fun s => panicked s = false)).
  clear. intros s s' Hp _ Ht.
  destruct Ht; simpl; try exact Hp.
  unfold V2.visit. destruct (isVisited _ _); [exact Hp|].
  destruct (depth link =? maxDepth); exact Hp.
Qed.

Lemma V2_depthInv_run (sched : list Choice) (s s' : State) :
  depthInv2 maxDepth s -> run2 sched s = Some s' -> depthInv2 maxDepth s'.
Proof.
  apply (V2_run_invariant unicodeLower http_Get maxDepth (depthInv2 maxDepth)).
  intros s1 s2 H1 _ Ht.
  eapply depthInv2_step; eauto.
Qed.

(** No run is longer than the steps left at its start. *)
Lemma V2_run_bounded (sched : list Choice) : forall s s',
  depthInv2 maxDepth s -> run2 sched s = Some s' ->
  (List.length sched + stepsLeft' s' <= stepsLeft' s)%nat.
Proof.
  induction sched as [|c sched IH]; intros s s' Hi H; simpl in H.
  - injection H as <-. simpl. lia.
  - destruct (step2 c s) as [s1|] eqn:Hc; [|discriminate].
    apply V2_step_Trans in Hc as [Ht _].
    pose proof (V2_stepsLeft_decreases unicodeLower http_Get maxDepth
                  maxDepth_int s s1 Hi Ht) as Hlt.
    pose proof (depthInv2_step unicodeLower http_Get maxDepth maxDepth_int
                  s s1 Hi Ht) as Hi1.
    specialize (IH s1 s' Hi1 H). simpl. lia.
Qed.




End Progress.

Section Pending.

Variable unicodeLower : string -> string.
Variable http_Get : string -> Response + error.
Variable maxDepth : Z.

Local Abbreviation stepsLeft' := (stepsLeft unicodeLower http_Get maxDepth).
Local Abbreviation run2 := (V2.run unicodeLower http_Get maxDepth).
Local Abbreviation step2 := (V2.step unicodeLower http_Get maxDepth).

Lemma pendingInv_init (urls : list string) :
  Z.of_nat (List.length urls) <= maxInt ->
  pendingInv (List.length urls) (init urls).
Proof.
  intros H. unfold pendingInv, count, maxInt in *. simpl.
  rewrite wrap_small; lia.
Qed.

(** Later revision: [n] moves with the number of goroutines that have not
    returned; the offset fixed at the start never changes. *)
Lemma V2_pendingInv_step (seeds : nat) (s s' : State) :
  pendingInv seeds s -> V2.Trans unicodeLower http_Get maxDepth s s' ->
  pendingInv seeds s'.
Proof.
  unfold pendingInv. intros Hn Ht.
  destruct Ht; simpl; try rewrite H in Hn; simpl in Hn;
    try (count_step; rewrite Hn; f_equal; simpl; lia).
  - rewrite Hn. reflexivity.
  - unfold count. simpl. unfold Z.sub at 1. rewrite Hn, wrap_wrap. f_equal.
    unfold count. lia.
  - unfold V2.visit. destruct (isVisited _ _); simpl; [exact Hn|].
    destruct (depth link =? maxDepth); simpl; [exact Hn|].
    rewrite Hn, wrap_wrap. f_equal. unfold count. simpl.
    rewrite sum_list_with_app. simpl. lia.
  - rewrite Hn. f_equal. unfold count. simpl.
    pose proof (sum_list_with_insert live _ _ _ GExit H1) as E. simpl in E.
    lia.
Qed.

Lemma V2_pendingInv_run (urls : list string) (sched : list Choice) (s : State) :
  Z.of_nat (List.length urls) <= maxInt ->
  run2 sched (init urls) = Some s -> pendingInv (List.length urls) s.
Proof.
  intros Hl H.
  eapply (V2_run_invariant unicodeLower http_Get maxDepth
            (pendingInv (List.length urls))); [| |exact H].
  - intros s1 s2 H1 _ Ht. eapply V2_pendingInv_step; eauto.
  - apply pendingInv_init. exact Hl.
Qed.

Lemma live_le_goroutineCost (gs : list Goroutine) :
  (sum_list_with live gs
   <= sum_list_with (goroutineCost unicodeLower http_Get maxDepth) gs)%nat.
Proof.
  induction gs as [|g gs IH]; simpl; [lia|]. destruct g; simpl; lia.
Qed.

Lemma live_le_stepsLeft (s : State) : (count live s <= stepsLeft' s)%nat.
Proof.
  unfold count, stepsLeft. pose proof (live_le_goroutineCost (goroutines s)). lia.
Qed.


(** At the receive, with a goroutine that has not returned, something can
    run: that goroutine, the goroutine holding the token it waits for, or the
    receive itself. *)
Lemma V2_live_can_step (s : State) :
  tokensHeld s -> panicked s = false ->
  pc s = LoopHead -> (n s >? 0) = true ->
  (0 < count live s)%nat ->
  exists c s', step2 c s = Some s'.
Proof.
  intros [Ht Hcap] Hp Epc En Hpos. unfold V2.step. rewrite Hp.
  apply sum_list_with_pos in Hpos as (g & st & Hg & Hst).
  assert (Hgo : forall g' st',
             goroutines s !! g' = Some st' ->
             match st' with
             | GFetch _ | GExtract _ _ | GRelease _ | GSend _ => True
             | _ => False
             end ->
             exists c s', match c with
                          | Main => V2.mainStep maxDepth s
                          | Receive g0 => V2.receiveStep g0 s
                          | Go g0 => V2.goStep unicodeLower http_Get g0 s
                          end = Some s').
  { intros g' st' Hg' Hk. destruct st' as [l|l r|l r|b|b|]; try contradiction.
    - exists (Go g'). unfold V2.goStep. rewrite Hg'. cbn [V2.worker].
      destruct (getUrl http_Get (url l)) as [[resp e] lg].
      destruct e, resp; eexists; reflexivity.
    - exists (Go g'). unfold V2.goStep. rewrite Hg'. cbn [V2.worker].
      destruct (V2.ExtractLinks unicodeLower r (wrap (depth l + 1))).
      eexists; reflexivity.
    - exists (Go g'). unfold V2.goStep. rewrite Hg'. cbn [V2.worker].
      assert (Hh : (0 < sum_list_with holdsToken (goroutines s))%nat).
      { clear -Hg'. revert g' Hg'. induction (goroutines s) as [|x gs IH];
          intros [|g'] Hg'; simpl in *; try discriminate.
        - injection Hg' as ->. simpl. lia.
        - specialize (IH g' Hg'). lia. }
      unfold count in Ht. destruct (requestTokens s); [lia|]. eexists; reflexivity.
    - exists (Receive g'). unfold V2.receiveStep. rewrite Epc, Hg', En.
      eexists; reflexivity. }
  destruct st as [l|l r|l r|b|b|]; simpl in Hst; try lia;
    try (eapply Hgo; [exact Hg | exact I]).
  (* the goroutine waits for a token *)
  destruct (requestTokens s <? tokenCap)%nat eqn:Etok.
  - exists (Go g). unfold V2.goStep. rewrite Hg. cbn [V2.worker]. rewrite Etok.
    eexists; reflexivity.
  - apply Nat.ltb_ge in Etok. unfold tokenCap in Etok.
    assert (Hh : (0 < sum_list_with holdsToken (goroutines s))%nat)
      by (unfold count in Ht; lia).
    apply sum_list_with_pos in Hh as (g' & st' & Hg' & Hst').
    eapply Hgo; [exact Hg'|]. destruct st'; simpl in Hst'; try lia; exact I.
Qed.

(** Unless [crawler] has returned, some step is possible: a crawl started
    from one seed cannot get stuck.  At the receive [n] is the number of
    goroutines that have not returned, modulo [2 ^ 64]; if it is positive,
    that number is not 0. *)
Lemma V2_progress (s : State) :
  pendingInv 1 s -> tokensHeld s -> panicked s = false ->
  pc s <> Returned ->
  exists c s', step2 c s = Some s'.
Proof.
  intros Hn Ht Hp Hpc.
  destruct (pc s) as [|[|link rest]|] eqn:Epc; try contradiction.
  2: { exists Main. eexists. unfold V2.step, V2.mainStep. rewrite Hp, Epc. reflexivity. }
  2: { exists Main. eexists. unfold V2.step, V2.mainStep. rewrite Hp, Epc. reflexivity. }
  destruct (n s >? 0) eqn:En.
  2: { exists Main. eexists. unfold V2.step, V2.mainStep. rewrite Hp, Epc, En.
       reflexivity. }
  apply V2_live_can_step; try assumption.
  unfold pendingInv in Hn. rewrite Epc in Hn.
  destruct (count live s) as [|k] eqn:El; [|lia].
  exfalso. rewrite Hn in En. vm_compute in En. discriminate.
Qed.

End Pending.

(** ** A failed fetch *)

Lemma V2_run_app (unicodeLower : string -> string)
    (http_Get : string -> Response + error) (maxDepth : Z)
    (a b : list Choice) (s : State) :
  V2.run unicodeLower http_Get maxDepth (a ++ b) s
  = match V2.run unicodeLower http_Get maxDepth a s with
    | Some s1 => V2.run unicodeLower http_Get maxDepth b s1
    | None => None
    end.
Proof.
  revert s. induction a as [|c a IH]; intros s; simpl; [reflexivity|].
  destruct (V2.step unicodeLower http_Get maxDepth c s); [apply IH | reflexivity].
Qed.




(** ** More than one seed *)

Lemma V2_visit_pc (maxDepth : Z) (link : Link) (rest : list Link) (s : State) :
  pc (V2.visit maxDepth link rest s) = InBatch rest.
Proof.
  unfold V2.visit. destruct (isVisited _ _); [reflexivity|].
  destruct (depth link =? maxDepth); reflexivity.
Qed.

(** Later revision, one seed: at the head of the loop [n] is the number of
    goroutines whose batch has not been received, and one more while a batch
    is being ranged over. *)
Lemma V2_one_seed_counter (unicodeLower : string -> string)
    (http_Get : string -> Response + error) (maxDepth : Z)
    (seed : string) (sched : list Choice) (s : State) :
  V2.run unicodeLower http_Get maxDepth sched (init [seed]) = Some s ->
  n s = wrap (Z.of_nat (count live s) + inBatch (pc s)).
Proof.
  intros H.
  pose proof (V2_pendingInv_run unicodeLower http_Get maxDepth [seed] sched s) as Hn.
  unfold pendingInv in Hn. simpl in Hn. rewrite Hn; [f_equal; lia | | exact H].
  unfold maxInt. lia.
Qed.

Lemma live_le_length (gs : list Goroutine) :
  (sum_list_with live gs <= List.length gs)%nat.
Proof. induction gs as [|g gs IH]; simpl; [lia|]. destruct g; simpl; lia. Qed.

(** No step removes a goroutine from the list of those started. *)
Lemma V2_goroutines_grow (unicodeLower : string -> string)
    (http_Get : string -> Response + error) (maxDepth : Z) (s s' : State) :
  V2.Trans unicodeLower http_Get maxDepth s s' ->
  (List.length (goroutines s) <= List.length (goroutines s'))%nat.
Proof.
  intros Ht. destruct Ht; simpl; try rewrite length_insert; try lia.
  unfold V2.visit. destruct (isVisited _ _); simpl; [lia|].
  destruct (depth link =? maxDepth); simpl; [lia|]. rewrite length_app. lia.
Qed.

(** Later revision, two seeds or more: as long as [n] has not wrapped around
    (it counts the seeds and the goroutines started), [crawler] has not
    returned, whatever the web and the schedule, because [n] stays above the
    number of batches that are still due. *)
Lemma V2_several_seeds_never_return (unicodeLower : string -> string)
    (http_Get : string -> Response + error) (maxDepth : Z)
    (urls : list string) (sched : list Choice) :
  (2 <= List.length urls)%nat ->
  forall s,
    V2.run unicodeLower http_Get maxDepth sched (init urls) = Some s ->
    Z.of_nat (List.length (goroutines s)) + Z.of_nat (List.length urls) <= maxInt ->
    pc s <> Returned.
Proof.
  intros Hlen. induction sched as [|c sched IH] using rev_ind; intros s H Hsmall.
  - injection H as <-. discriminate.
  - rewrite V2_run_app in H.
    destruct (V2.run unicodeLower http_Get maxDepth sched (init urls)) as [s0|] eqn:H0;
      [|discriminate].
    simpl in H.
    destruct (V2.step unicodeLower http_Get maxDepth c s0) as [s1|] eqn:Hc;
      [|discriminate].
    injection H as <-. apply V2_step_Trans in Hc as [Ht _].
    pose proof (V2_goroutines_grow unicodeLower http_Get maxDepth s0 s1 Ht) as Hgrow.
    specialize (IH s0 eq_refl ltac:(lia)).
    assert (Hn : pendingInv (List.length urls) s0).
    { apply (V2_pendingInv_run unicodeLower http_Get maxDepth urls sched s0);
        [unfold maxInt in *; lia | exact H0]. }
    pose proof (live_le_length (goroutines s0)) as Hl.
    unfold maxInt in *.
    destruct Ht; simpl; try discriminate; try exact IH.
    + (* the loop would have to see [n <= 0] *)
      unfold pendingInv, count in Hn. rewrite H in Hn. simpl in Hn, Hsmall.
      rewrite wrap_small in Hn by lia. lia.
    + rewrite V2_visit_pc. discriminate.
Qed.

(** ** The earlier revision's worker and depth test, in general *)

(** Earlier revision: after a failed fetch the worker returns without a
    send, whatever the fuel. *)
Lemma V1_worker_sends_nothing_on_error (unicodeLower : string -> string)
    (http_Get : string -> Response + error) (link : Link) (err : error) (fuel : nat) :
  http_Get (url link) = inr err ->
  sends (V1.workerOps unicodeLower http_Get fuel (GFetch link)) = [].
Proof.
  intros Hw. destruct fuel as [|fuel]; [reflexivity|].
  cbn [V1.workerOps V1.worker].
  pose proof (getUrl_results http_Get (url link)) as Hr. rewrite Hw in Hr.
  destruct (getUrl http_Get (url link)) as [[resp e] lg]. simpl in Hr.
  injection Hr as -> ->. destruct fuel; reflexivity.
Qed.

(** Earlier revision: a link at [maxDepth] that is not visited yet is
    appended and a worker is started for it. *)
Lemma V1_link_at_maxDepth (maxDepth : Z) (link : Link) (rest : list Link) (s : State) :
  - 2 ^ 63 <= maxDepth <= maxInt ->
  isVisited (visited s) (url link) = false ->
  depth link = maxDepth ->
  res (V1.visit maxDepth link rest s) = res s ++ [link] /\
  goroutines (V1.visit maxDepth link rest s) = goroutines s ++ [GFetch link] /\
  n (V1.visit maxDepth link rest s) = wrap (n s + 1).
Proof.
  intros Hd Hv He. unfold V1.visit. rewrite Hv.
  destruct (depth link =? wrap (maxDepth + 1)) eqn:E; [|simpl; auto].
  apply Z.eqb_eq in E. rewrite He in E. exfalso. unfold maxInt in Hd.
  destruct (Z.eq_dec maxDepth (2 ^ 63 - 1)) as [-> | Hne].
  - vm_compute in E. discriminate.
  - rewrite wrap_small in E; lia.
Qed.

(** * Further properties *)

(** ** [strings.TrimSpace] applied twice *)

Lemma HasPrefixB_length (s p : list ascii) :
  strings.HasPrefixB s p = true -> (List.length p <= List.length s)%nat.
Proof.
  intros H. apply HasPrefixB_spec in H as [post ->]. rewrite length_app. lia.
Qed.

Lemma HasPrefixB_app (s1 s2 p : list ascii) :
  strings.HasPrefixB s1 p = true -> strings.HasPrefixB (s1 ++ s2) p = true.
Proof.
  intros H. apply HasPrefixB_spec in H as [post ->]. apply HasPrefixB_spec.
  exists (post ++ s2). rewrite app_assoc. reflexivity.
Qed.

Lemma stripOne_prefix (pats : list (list ascii)) (s1 s2 : list ascii) :
  strings.stripOne pats (s1 ++ s2) = None -> strings.stripOne pats s1 = None.
Proof.
  induction pats as [|p pats IH]; simpl; [reflexivity|].
  destruct (strings.HasPrefixB (s1 ++ s2) p) eqn:E; [discriminate|].
  destruct (strings.HasPrefixB s1 p) eqn:E1; [|exact IH].
  rewrite (HasPrefixB_app s1 s2 p E1) in E. discriminate.
Qed.

Lemma stripOne_shorter (pats : list (list ascii)) (s s' : list ascii) :
  Forall (fun p => p <> []) pats ->
  strings.stripOne pats s = Some s' ->
  (List.length s' < List.length s)%nat /\ exists pre, s = pre ++ s'.
Proof.
  induction pats as [|p pats IH]; intros Hne; simpl; [discriminate|].
  inversion Hne as [|? ? Hp Hrest]; subst.
  destruct (strings.HasPrefixB s p) eqn:E; [|apply IH; exact Hrest].
  intros [= <-]. pose proof (HasPrefixB_length s p E) as Hl.
  split.
  - rewrite length_skipn. destruct p; [contradiction | simpl in *; lia].
  - exists (firstn (List.length p) s). symmetry. apply firstn_skipn.
Qed.

Lemma trimLeft_done (pats : list (list ascii)) :
  Forall (fun p => p <> []) pats ->
  forall fuel s, (List.length s <= fuel)%nat ->
    strings.stripOne pats (strings.trimLeft fuel pats s) = None.
Proof.
  intros Hne. induction fuel as [|fuel IH]; intros s Hl; simpl.
  - destruct s; [|simpl in Hl; lia].
    clear -Hne. induction pats as [|p pats IH]; simpl; [reflexivity|].
    inversion Hne; subst. destruct p; [contradiction|]. simpl. apply IH. assumption.
  - destruct (strings.stripOne pats s) as [s'|] eqn:E; [|exact E].
    apply IH. apply (stripOne_shorter pats s s' Hne) in E as [E _]. lia.
Qed.

Lemma trimLeft_suffix (pats : list (list ascii)) :
  Forall (fun p => p <> []) pats ->
  forall fuel s, exists pre, s = pre ++ strings.trimLeft fuel pats s.
Proof.
  intros Hne. induction fuel as [|fuel IH]; intros s; simpl; [exists []; reflexivity|].
  destruct (strings.stripOne pats s) as [s'|] eqn:E; [|exists []; reflexivity].
  apply (stripOne_shorter pats s s' Hne) in E as [_ [pre ->]].
  destruct (IH s') as [pre' Hp]. exists (pre ++ pre').
  rewrite <- app_assoc, <- Hp. reflexivity.
Qed.

Lemma trimLeft_id (pats : list (list ascii)) (fuel : nat) (s : list ascii) :
  strings.stripOne pats s = None -> strings.trimLeft fuel pats s = s.
Proof. intros H. destruct fuel; simpl; [reflexivity|]. rewrite H. reflexivity. Qed.

Lemma spaceRunes_nonempty :
  Forall (fun p => p <> []) strings.spaceRunes /\
  Forall (fun p => p <> []) (map (@rev ascii) strings.spaceRunes).
Proof. split; vm_compute; repeat constructor; discriminate. Qed.

(** [strings.TrimSpace] leaves nothing for a second call to remove. *)
Lemma TrimSpace_idempotent (s : string) :
  strings.TrimSpace (strings.TrimSpace s) = strings.TrimSpace s.
Proof.
  destruct spaceRunes_nonempty as [Hl Hr].
  unfold strings.TrimSpace.
  set (b := list_ascii_of_string s).
  set (l := strings.trimLeft (List.length b) strings.spaceRunes b).
  set (r := strings.trimLeft (List.length l) (map (@rev ascii) strings.spaceRunes) (rev l)).
  rewrite list_ascii_of_string_of_list_ascii.
  assert (Hl0 : strings.stripOne strings.spaceRunes l = None)
    by (apply trimLeft_done; [exact Hl | lia]).
  assert (Hr0 : strings.stripOne (map (@rev ascii) strings.spaceRunes) r = None)
    by (apply trimLeft_done; [exact Hr | rewrite length_rev; lia]).
  destruct (trimLeft_suffix _ Hr (List.length l) (rev l)) as [pre Hpre].
  fold r in Hpre.
  assert (Hlr : l = rev r ++ rev pre).
  { rewrite <- rev_app_distr, <- Hpre, rev_involutive. reflexivity. }
  assert (Hl1 : strings.stripOne strings.spaceRunes (rev r) = None).
  { apply stripOne_prefix with (s2 := rev pre). rewrite <- Hlr. exact Hl0. }
  rewrite (trimLeft_id _ _ _ Hl1), rev_involutive, (trimLeft_id _ _ _ Hr0).
  reflexivity.
Qed.

(** ** [NewLink] *)

Lemma find_snoc {A} (f : A -> bool) (l : list A) (x : A) :
  find f (l ++ [x])
  = match find f l with Some y => Some y | None => if f x then Some x else None end.
Proof.
  induction l as [|y l IH]; simpl; [reflexivity|].
  destruct (f y); [reflexivity | exact IH].
Qed.

Lemma lastHref_cons (a : Attribute) (attrs : list Attribute) :
  lastHref (a :: attrs)
  = match lastHref attrs with
    | Some v => Some v
    | None => if String.eqb (Key a) atom_Href_String then Some (Val a) else None
    end.
Proof.
  unfold lastHref. simpl. rewrite find_snoc.
  destruct (find _ (rev attrs)); [reflexivity|].
  destruct (String.eqb (Key a) atom_Href_String); reflexivity.
Qed.

Lemma NewLink_fold (attrs : list Attribute) : forall l : Link,
  fold_left
    (fun link attr =>
       if String.eqb (Key attr) atom_Href_String
       then match link with
            | mkLink _ t d => mkLink (strings.TrimSpace (Val attr)) t d
            end
       else link) attrs l
  = mkLink (match lastHref attrs with
            | Some v => strings.TrimSpace v
            | None => url l
            end) (text l) (depth l).
Proof.
  induction attrs as [|a attrs IH]; intros [u t d0].
  - reflexivity.
  - cbn [fold_left]. rewrite IH, lastHref_cons.
    destruct (String.eqb (Key a) atom_Href_String);
      destruct (lastHref attrs); reflexivity.
Qed.

(** X1. [NewLink] takes the url from the last [href] attribute of the tag
    (trimmed), leaves it empty when the tag has none, and takes the trimmed
    text and the depth as given. *)
Theorem NewLink_last_href_wins (tag : Token) (txt : string) (d : Z) :
  NewLink tag txt d
  = mkLink (match lastHref (Attr tag) with
            | Some v => strings.TrimSpace v
            | None => ""%string
            end)
           (strings.TrimSpace txt) d.
Proof. unfold NewLink. rewrite NewLink_fold. reflexivity. Qed.

Lemma NewLink_trimmed (tag : Token) (txt : string) (d : Z) :
  trimmed (url (NewLink tag txt d)) /\ trimmed (text (NewLink tag txt d)).
Proof.
  unfold NewLink. rewrite NewLink_fold. unfold trimmed. simpl. split.
  - destruct (lastHref (Attr tag)); [apply TrimSpace_idempotent | reflexivity].
  - apply TrimSpace_idempotent.
Qed.

(** ** Where the extracted links come from *)

Section ExtractorMore.

Variable unicodeLower : string -> string.

Lemma isAnchorOpener_intro (token : Token) :
  N.eqb (DataAtom token) atom_A = true -> TokType token = StartTagToken ->
  (0 <? List.length (Attr token))%nat = true -> isAnchorOpener token = true.
Proof. unfold isAnchorOpener. intros -> -> ->. reflexivity. Qed.

(** Every link the loop adds is [NewLink] of an opener met on the way. *)
Lemma V2_scan_links (Q : Token -> Prop) (P : Link -> Prop) (d : Z) :
  (forall st txt, Q st -> P (NewLink st txt d)) ->
  forall page start txt links lg,
    (forall tok, In tok page -> isAnchorOpener tok = true -> Q tok) ->
    (forall st, start = Some st -> Q st) ->
    Forall P links ->
    Forall P (fst (V2.scan unicodeLower page d start txt links lg)).
Proof.
  intros HP. induction page as [|token page IH]; intros start txt links lg Hq Hs Hl;
    simpl; [exact Hl|].
  assert (Hq' : forall tok, In tok page -> isAnchorOpener tok = true -> Q tok)
    by (intros tok Hi; apply Hq; right; exact Hi).
  assert (Hnone : forall st : Token, @None Token = Some st -> Q st)
    by (intros st [=]).
  destruct (TokType token) eqn:Ety; try exact Hl;
    destruct (N.eqb (DataAtom token) atom_A) eqn:Ea; try (apply IH; assumption).
  - destruct (0 <? List.length (Attr token))%nat eqn:En; apply IH; try assumption.
    intros st [= <-]. apply Hq; [left; reflexivity|].
    apply isAnchorOpener_intro; assumption.
  - destruct start as [st|]; [|exact Hl].
    destruct (Valid unicodeLower (NewLink st txt d)); apply IH; try assumption.
    apply Forall_app; split; [exact Hl|].
    constructor; [apply HP, Hs; reflexivity | constructor].
Qed.

Lemma V1_scan_links (Q : Token -> Prop) (P : Link -> Prop) (d : Z) :
  (forall st txt, Q st -> P (NewLink st txt d)) ->
  forall page start txt links lg ls,
    (forall tok, In tok page -> isAnchorOpener tok = true -> Q tok) ->
    (forall st, start = Some st -> Q st) ->
    Forall P links ->
    fst (V1.scan unicodeLower page d start txt links lg) = Some ls ->
    Forall P ls.
Proof.
  intros HP. induction page as [|token page IH];
    intros start txt links lg ls Hq Hs Hl; simpl.
  - intros [= <-]. exact Hl.
  - assert (Hq' : forall tok, In tok page -> isAnchorOpener tok = true -> Q tok)
      by (intros tok Hi; apply Hq; right; exact Hi).
    assert (Hnone : forall st : Token, @None Token = Some st -> Q st)
      by (intros st [=]).
    destruct (TokType token) eqn:Ety; try (intros [= <-]; exact Hl);
      destruct (N.eqb (DataAtom token) atom_A) eqn:Ea; try (apply IH; assumption).
    + destruct (0 <? List.length (Attr token))%nat eqn:En; apply IH; try assumption.
      intros st [= <-]. apply Hq; [left; reflexivity|].
      apply isAnchorOpener_intro; assumption.
    + destruct start as [st|]; [|discriminate].
      destruct (Valid unicodeLower (NewLink st txt d)); apply IH; try assumption.
      apply Forall_app; split; [exact Hl|].
      constructor; [apply HP, Hs; reflexivity | constructor].
Qed.

(** X2. Every link [ExtractLinks(resp, d)] returns, in either revision, has
    depth [d], has a url and a text that [strings.TrimSpace] would not change,
    and its url is the trimmed value of the last [href] attribute of an anchor
    start tag of the document that carries attributes. *)
Theorem ExtractLinks_links_come_from_openers (resp : Response) (d : Z) (l : Link) :
  In l (fst (V2.ExtractLinks unicodeLower resp d)) \/
  (exists ls, fst (V1.ExtractLinks unicodeLower resp d) = Some ls /\ In l ls) ->
  depth l = d /\ trimmed (url l) /\ trimmed (text l) /\
  exists tok v,
    In tok (Body resp) /\ isAnchorOpener tok = true /\
    lastHref (Attr tok) = Some v /\ url l = strings.TrimSpace v.
Proof.
  set (Q := fun tok : Token => In tok (Body resp) /\ isAnchorOpener tok = true).
  set (P := fun l : Link =>
              depth l = d /\ trimmed (url l) /\ trimmed (text l) /\
              exists tok,
                Q tok /\
                url l = match lastHref (Attr tok) with
                        | Some v => strings.TrimSpace v
                        | None => ""%string
                        end).
  assert (HP : forall st txt, Q st -> P (NewLink st txt d)).
  { intros st txt Hq. unfold NewLink. rewrite NewLink_fold. unfold P, trimmed. simpl.
    split; [reflexivity|]. split.
    - destruct (lastHref (Attr st)); [apply TrimSpace_idempotent | reflexivity].
    - split; [apply TrimSpace_idempotent|]. exists st. split; [exact Hq | reflexivity]. }
  assert (Hq : forall tok, In tok (Body resp) -> isAnchorOpener tok = true -> Q tok)
    by (intros tok Hi Ho; split; assumption).
  assert (Hs : forall st : Token, @None Token = Some st -> Q st) by (intros st [=]).
  intros H.
  assert (Hpl : P l /\ Valid unicodeLower l = true).
  { destruct H as [H | (ls & Hls & H)].
    - pose proof (V2_scan_links Q P d HP (Body resp) None "" [] [] Hq Hs
                    (List.Forall_nil _)) as HF.
      pose proof (V2_scan_valid unicodeLower (Body resp) d None "" [] []
                    (List.Forall_nil _)) as HV.
      rewrite List.Forall_forall in HF, HV. split; [apply HF | apply HV]; exact H.
    - pose proof (V1_scan_links Q P d HP (Body resp) None "" [] [] ls Hq Hs
                    (List.Forall_nil _) Hls) as HF.
      pose proof (V1_scan_valid unicodeLower (Body resp) d None "" [] [] ls
                    (List.Forall_nil _) Hls) as HV.
      rewrite List.Forall_forall in HF, HV. split; [apply HF | apply HV]; exact H. }
  destruct Hpl as [(Hd & Hu & Ht & tok & [Hin Ho] & Hurl) Hv].
  repeat split; try assumption.
  apply Valid_true in Hv as (_ & Hne & _).
  destruct (lastHref (Attr tok)) as [v|] eqn:E; [|contradiction].
  exists tok, v. auto.
Qed.

End ExtractorMore.

Lemma ExtractLinks_links_come_from_openers_witness :
  depth linkY = 1 /\ trimmed (url linkY) /\ trimmed (text linkY) /\
  exists tok v,
    In tok (Body (mkResponse 200 pageX)) /\ isAnchorOpener tok = true /\
    lastHref (Attr tok) = Some v /\ url linkY = strings.TrimSpace v.
Proof.
  apply (ExtractLinks_links_come_from_openers noUnicode (mkResponse 200 pageX) 1 linkY).
  left. vm_compute. left. reflexivity.
Defined.

(** ** How many links a document can yield, and where the scan ends *)

Section ExtractorCounts.

Variable unicodeLower : string -> string.

Ltac count_cases token :=
  destruct (isAnchorEnd token) eqn:HE; destruct (isAnchorOpener token) eqn:HO;
  unfold isAnchorEnd in HE; unfold isAnchorOpener in HO;
  destruct (TokType token) eqn:Ety;
  destruct (N.eqb (DataAtom token) atom_A) eqn:Ea;
  destruct (0 <? List.length (Attr token))%nat eqn:En;
  simpl in HE, HO; try discriminate.

Lemma V2_scan_count (d : Z) (page : list Token) : forall start txt links lg,
  (List.length (fst (V2.scan unicodeLower page d start txt links lg))
   <= List.length links + List.length (List.filter isAnchorEnd page))%nat /\
  (List.length (fst (V2.scan unicodeLower page d start txt links lg))
   <= List.length links + held start
      + List.length (List.filter isAnchorOpener page))%nat.
Proof.
  induction page as [|token page IH]; intros start txt links lg.
  - simpl. split; lia.
  - cbn [V2.scan List.filter]. count_cases token;
      try (simpl; split; lia);
      destruct start as [st|]; try (simpl; split; lia);
      try destruct (Valid unicodeLower (NewLink st txt d));
      match goal with
      | |- context [V2.scan _ _ _ ?st ?t ?l ?g] =>
          destruct (IH st t l g) as [H1 H2]
      end;
      try rewrite length_app in *; simpl in *; split; lia.
Qed.

Lemma V1_scan_count (d : Z) (page : list Token) : forall start txt links lg ls,
  fst (V1.scan unicodeLower page d start txt links lg) = Some ls ->
  (List.length ls
   <= List.length links + List.length (List.filter isAnchorEnd page))%nat /\
  (List.length ls
   <= List.length links + held start
      + List.length (List.filter isAnchorOpener page))%nat.
Proof.
  induction page as [|token page IH]; intros start txt links lg ls.
  - simpl. intros [= <-]. split; lia.
  - cbn [V1.scan List.filter]. count_cases token;
      try (simpl; intros [= <-]; split; lia);
      destruct start as [st|]; try discriminate;
      try destruct (Valid unicodeLower (NewLink st txt d));
      intros H; apply IH in H as [H1 H2];
      try rewrite length_app in *; simpl in *; split; lia.
Qed.

(** X3. [ExtractLinks] returns at most as many links as the document has
    anchor end tags, and at most as many as it has anchor start tags with
    attributes, in either revision: a link needs an opener and a closer of
    its own. *)
Theorem ExtractLinks_at_most_one_link_per_anchor (resp : Response) (d : Z)
    (ls : list Link) :
  fst (V2.ExtractLinks unicodeLower resp d) = ls \/
  fst (V1.ExtractLinks unicodeLower resp d) = Some ls ->
  (List.length ls <= List.length (List.filter isAnchorEnd (Body resp)))%nat /\
  (List.length ls <= List.length (List.filter isAnchorOpener (Body resp)))%nat.
Proof.
  intros [<- | H].
  - destruct (V2_scan_count d (Body resp) None "" [] []) as [H1 H2].
    simpl in *. unfold V2.ExtractLinks. split; lia.
  - apply V1_scan_count in H as [H1 H2]. simpl in *. split; lia.
Qed.




Lemma existsb_isWarn_snoc_debug (lg : list LogEntry) (f : string) (a : list LogArg) :
  existsb isWarn lg = false -> existsb isWarn (lg ++ [Logf Debug f a]) = false.
Proof. intros H. rewrite existsb_app, H. reflexivity. Qed.

Lemma scan_revisions_agree (d : Z) (page : list Token) :
  forall start txt links lg1 lg2,
    existsb isWarn lg2 = false ->
    match fst (V1.scan unicodeLower page d start txt links lg1) with
    | Some ls =>
        fst (V2.scan unicodeLower page d start txt links lg2) = ls /\
        existsb isWarn (snd (V2.scan unicodeLower page d start txt links lg2)) = false
    | None =>
        existsb isWarn (snd (V2.scan unicodeLower page d start txt links lg2)) = true
    end.
Proof.
  induction page as [|token page IH]; intros start txt links lg1 lg2 Hw.
  - simpl. auto.
  - cbn [V1.scan V2.scan].
    destruct (TokType token); try (simpl; auto; fail);
      destruct (N.eqb (DataAtom token) atom_A); try (apply IH; exact Hw).
    + destruct (0 <? List.length (Attr token))%nat; apply IH; exact Hw.
    + destruct start as [st|].
      * destruct (Valid unicodeLower (NewLink st txt d)); apply IH;
          [apply existsb_isWarn_snoc_debug|]; exact Hw.
      * simpl. rewrite existsb_app. simpl. apply orb_true_r.
Qed.

(** X5. The two revisions of [ExtractLinks] agree wherever the earlier one
    returns: same links, and the later one logs no warning.  The earlier one
    panics exactly on the documents for which the later one logs its
    warning. *)
Theorem ExtractLinks_revisions_agree (resp : Response) (d : Z) :
  match fst (V1.ExtractLinks unicodeLower resp d) with
  | Some ls =>
      fst (V2.ExtractLinks unicodeLower resp d) = ls /\
      existsb isWarn (snd (V2.ExtractLinks unicodeLower resp d)) = false
  | None => existsb isWarn (snd (V2.ExtractLinks unicodeLower resp d)) = true
  end.
Proof.
  unfold V1.ExtractLinks, V2.ExtractLinks. apply scan_revisions_agree. reflexivity.
Qed.

End ExtractorCounts.

Lemma ExtractLinks_at_most_one_link_per_anchor_witness :
  (List.length [linkY] <= List.length (List.filter isAnchorEnd pageX))%nat /\
  (List.length [linkY] <= List.length (List.filter isAnchorOpener pageX))%nat.
Proof.
  apply (ExtractLinks_at_most_one_link_per_anchor noUnicode (mkResponse 200 pageX) 1
           [linkY]).
  left. vm_compute. reflexivity.
Defined.


(** ** Links that reach the result *)

Section ResultLinks.

Variable unicodeLower : string -> string.
Variable http_Get : string -> Response + error.
Variable maxDepth : Z.

Lemma V2_visit_res (link : Link) (rest : list Link) (s : State) :
  res (V2.visit maxDepth link rest s) = res s \/
  res (V2.visit maxDepth link rest s) = res s ++ [link].
Proof.
  unfold V2.visit. destruct (isVisited _ _); [left; reflexivity|].
  destruct (depth link =? maxDepth); right; reflexivity.
Qed.

Lemma V1_visit_res (link : Link) (rest : list Link) (s : State) :
  res (V1.visit maxDepth link rest s) = res s \/
  res (V1.visit maxDepth link rest s) = res s ++ [link].
Proof.
  unfold V1.visit. destruct (isVisited _ _); [left; reflexivity|].
  destruct (depth link =? wrap (maxDepth + 1)); [left | right]; reflexivity.
Qed.

Lemma V1_visit_pc (link : Link) (rest : list Link) (s : State) :
  pc (V1.visit maxDepth link rest s) = InBatch rest \/
  pc (V1.visit maxDepth link rest s) = InBatch [].
Proof.
  unfold V1.visit. destruct (isVisited _ _); [left; reflexivity|].
  destruct (depth link =? wrap (maxDepth + 1)); [right | left]; reflexivity.
Qed.

Lemma V2_linksInv_step (P : Link -> Prop) (s s' : State) :
  (forall resp d, Forall P (fst (V2.ExtractLinks unicodeLower resp d))) ->
  linksInv P s -> V2.Trans unicodeLower http_Get maxDepth s s' -> linksInv P s'.
Proof.
  unfold linksInv. intros HE (Hr & Hb & Hg) Ht.
  destruct Ht; simpl; try rewrite H in Hb;
    try (pose proof (Forall_lookup_1 _ _ _ _ Hg H) as Hold; simpl in Hold);
    try (repeat split; try assumption; try apply Forall_insert; simpl;
         solve [assumption | constructor | trivial | apply HE]).
  - inversion Hb as [|? ? Hl Hrest]; subst.
    rewrite V2_visit_pc.
    destruct (V2_visit_res link rest s) as [-> | ->];
      destruct (V2_visit_goroutines maxDepth link rest s) as [-> | [-> _]];
      repeat split; try assumption;
      try (apply Forall_app; split; [assumption|]; constructor;
           [first [assumption | exact I] | constructor]).
  - pose proof (Forall_lookup_1 _ _ _ _ Hg H1) as Hold. simpl in Hold.
    repeat split; try assumption. apply Forall_insert; simpl; trivial.
Qed.

Lemma V1_linksInv_step (P : Link -> Prop) (s s' : State) :
  (forall resp d ls, fst (V1.ExtractLinks unicodeLower resp d) = Some ls -> Forall P ls) ->
  linksInv P s -> V1.Trans unicodeLower http_Get maxDepth s s' -> linksInv P s'.
Proof.
  unfold linksInv. intros HE (Hr & Hb & Hg) Ht.
  destruct Ht; simpl; try rewrite H in Hb;
    try (pose proof (Forall_lookup_1 _ _ _ _ Hg H) as Hold; simpl in Hold);
    try (repeat split; try assumption; try apply Forall_insert; simpl;
         solve [assumption | constructor | trivial]).
  - inversion Hb as [|? ? Hl Hrest]; subst.
    destruct (V1_visit_res link rest s) as [-> | ->];
      destruct (V1_visit_pc link rest s) as [-> | ->];
      destruct (V1_visit_goroutines maxDepth link rest s) as [-> | [-> _]];
      repeat split; try assumption; try constructor;
      try (apply Forall_app; split; [assumption|]; constructor;
           [first [assumption | exact I] | constructor]).
  - pose proof (Forall_lookup_1 _ _ _ _ Hg H1) as Hold. simpl in Hold.
    repeat split; try assumption. apply Forall_insert; simpl; trivial.
  - repeat split; try assumption. apply Forall_insert; [assumption|]. simpl.
    apply (HE resp (wrap (depth link + 1))). rewrite H0. reflexivity.
Qed.

Lemma linksInv_run (P : Link -> Prop) (r : Revision) (urls : list string)
    (sched : list Choice) (s : State) :
  (forall l, In l (initialLinks urls) -> P l) ->
  (forall resp d l, In l (fst (V2.ExtractLinks unicodeLower resp d)) -> P l) ->
  (forall resp d ls l,
      fst (V1.ExtractLinks unicodeLower resp d) = Some ls -> In l ls -> P l) ->
  run r unicodeLower http_Get maxDepth sched (init urls) = Some s ->
  linksInv P s.
Proof.
  intros Hseed H2 H1 H.
  assert (Hi : linksInv P (init urls)).
  { unfold linksInv. simpl. repeat split; constructor; [|constructor].
    simpl. apply List.Forall_forall. exact Hseed. }
  destruct r; simpl in H.
  - eapply (V1_run_invariant unicodeLower http_Get maxDepth (linksInv P));
      [|exact Hi|exact H].
    intros s1 s2 Hs _ Ht. eapply V1_linksInv_step; eauto.
    intros resp d ls Hls. apply List.Forall_forall. intros l. apply (H1 resp d ls l Hls).
  - eapply (V2_run_invariant unicodeLower http_Get maxDepth (linksInv P));
      [|exact Hi|exact H].
    intros s1 s2 Hs _ Ht. eapply V2_linksInv_step; eauto.
    intros resp d. apply List.Forall_forall. intros l. apply (H2 resp d l).
Qed.

Lemma crawler_run (r : Revision) (urls : list string) (sched : list Choice)
    (result : list Link) :
  crawler r unicodeLower http_Get maxDepth sched urls = Some result ->
  exists s, run r unicodeLower http_Get maxDepth sched (init urls) = Some s /\
            pc s = Returned /\ res s = result.
Proof.
  intros Hc.
  destruct r; simpl in *; [unfold V1.crawler in Hc | unfold V2.crawler in Hc];
    match type of Hc with
    | match ?x with _ => _ end = _ => destruct x as [s|] eqn:E; [|discriminate]
    end; destruct (pc s) eqn:Epc; try discriminate; injection Hc as <-; eauto.
Qed.

Lemma extracted_valid_trimmed (resp : Response) (d : Z) (l : Link) :
  In l (fst (V2.ExtractLinks unicodeLower resp d)) \/
  (exists ls, fst (V1.ExtractLinks unicodeLower resp d) = Some ls /\ In l ls) ->
  Valid unicodeLower l = true /\ trimmed (url l).
Proof.
  set (Q := fun _ : Token => True).
  set (P := fun l : Link => trimmed (url l)).
  assert (HP : forall st txt, Q st -> P (NewLink st txt d))
    by (intros st txt _; apply NewLink_trimmed).
  assert (Hq : forall tok, In tok (Body resp) -> isAnchorOpener tok = true -> Q tok)
    by (intros; exact I).
  assert (Hs : forall st : Token, @None Token = Some st -> Q st) by (intros; exact I).
  intros [H | (ls & Hls & H)].
  - pose proof (V2_scan_links unicodeLower Q P d HP (Body resp) None "" [] [] Hq Hs
                  (List.Forall_nil _)) as HF.
    pose proof (V2_scan_valid unicodeLower (Body resp) d None "" [] []
                  (List.Forall_nil _)) as HV.
    rewrite List.Forall_forall in HF, HV. split; [apply HV | apply HF]; exact H.
  - pose proof (V1_scan_links unicodeLower Q P d HP (Body resp) None "" [] [] ls Hq Hs
                  (List.Forall_nil _) Hls) as HF.
    pose proof (V1_scan_valid unicodeLower (Body resp) d None "" [] [] ls
                  (List.Forall_nil _) Hls) as HV.
    rewrite List.Forall_forall in HF, HV. split; [apply HV | apply HF]; exact H.
Qed.

(** X6. Every link of the sequence [crawler] returns, in either revision,
    is one of the seed links (which are recorded without any test) or passed
    [Valid]; in both cases [strings.TrimSpace] would not change its url. *)
Theorem crawler_result_is_seeds_and_valid_links
    (r : Revision) (urls : list string) (sched : list Choice)
    (result : list Link) (l : Link) :
  crawler r unicodeLower http_Get maxDepth sched urls = Some result ->
  In l result ->
  (In l (map seedLink urls) \/ Valid unicodeLower l = true) /\ trimmed (url l).
Proof.
  intros Hc Hl. apply crawler_run in Hc as (s & Hs & _ & <-).
  set (P := fun l : Link =>
              (In l (map seedLink urls) \/ Valid unicodeLower l = true)
              /\ trimmed (url l)).
  assert (Hi : linksInv P s).
  { apply (linksInv_run P r urls sched s); [| | |exact Hs].
    - intros x Hx. rewrite initialLinks_map in Hx. split; [left; exact Hx|].
      apply in_map_iff in Hx as (u & <- & _). apply TrimSpace_idempotent.
    - intros resp d x Hx.
      destruct (extracted_valid_trimmed resp d x (or_introl Hx)) as [Hv Ht].
      split; [right; exact Hv | exact Ht].
    - intros resp d ls x Hls Hx.
      destruct (extracted_valid_trimmed resp d x
                  (or_intror (ex_intro _ ls (conj Hls Hx)))) as [Hv Ht].
      split; [right; exact Hv | exact Ht]. }
  destruct Hi as (Hr & _). rewrite List.Forall_forall in Hr. apply Hr. exact Hl.
Qed.

(** A link once recorded is never removed, changed or moved. *)
Lemma V2_res_prefix (sched : list Choice) : forall s s',
  V2.run unicodeLower http_Get maxDepth sched s = Some s' ->
  exists ext, res s' = res s ++ ext.
Proof.
  induction sched as [|c sched IH]; intros s s' H; simpl in H.
  - injection H as <-. exists []. rewrite app_nil_r. reflexivity.
  - destruct (V2.step unicodeLower http_Get maxDepth c s) as [s1|] eqn:Hc;
      [|discriminate].
    destruct (IH s1 s' H) as [ext Hext].
    destruct (V2_step_ranged unicodeLower http_Get maxDepth c s s1 Hc)
      as [(link & rest & _ & ->) | (_ & _ & Er)].
    + destruct (V2_visit_res link rest s) as [E | E]; rewrite E in Hext.
      * eauto.
      * exists ([link] ++ ext). rewrite Hext, <- app_assoc. reflexivity.
    + rewrite Er in Hext. eauto.
Qed.

Lemma V1_res_prefix (sched : list Choice) : forall s s',
  V1.run unicodeLower http_Get maxDepth sched s = Some s' ->
  exists ext, res s' = res s ++ ext.
Proof.
  induction sched as [|c sched IH]; intros s s' H; simpl in H.
  - injection H as <-. exists []. rewrite app_nil_r. reflexivity.
  - destruct (V1.step unicodeLower http_Get maxDepth c s) as [s1|] eqn:Hc;
      [|discriminate].
    destruct (IH s1 s' H) as [ext Hext].
    destruct (V1_step_ranged unicodeLower http_Get maxDepth c s s1 Hc)
      as [(link & rest & _ & ->) | (_ & _ & Er)].
    + destruct (V1_visit_res link rest s) as [E | E]; rewrite E in Hext.
      * eauto.
      * exists ([link] ++ ext). rewrite Hext, <- app_assoc. reflexivity.
    + rewrite Er in Hext. eauto.
Qed.

(** X7. Along every run of either revision, from any state, the result only
    grows at its end: what was recorded is still there, unchanged and in the
    same order. *)
Theorem crawler_result_is_append_only
    (r : Revision) (sched : list Choice) (s s' : State) :
  run r unicodeLower http_Get maxDepth sched s = Some s' ->
  exists ext, res s' = res s ++ ext.
Proof. destruct r; simpl; [apply V1_res_prefix | apply V2_res_prefix]. Qed.

End ResultLinks.

Lemma crawler_result_is_seeds_and_valid_links_witness :
  (In linkY (map seedLink ["http://x/"%string]) \/ Valid noUnicode linkY = true)
  /\ trimmed (url linkY).
Proof.
  apply (crawler_result_is_seeds_and_valid_links noUnicode exampleWeb 2 Later
           ["http://x/"%string] scheduleXY [seedX; linkY] linkY).
  - vm_compute. reflexivity.
  - right. left. reflexivity.
Defined.

Lemma crawler_result_is_append_only_witness :
  exists ext, res (stateAfter Later exampleWeb 2 scheduleXY (init ["http://x/"%string]))
              = res failedFetchState ++ ext.
Proof.
  apply (crawler_result_is_append_only noUnicode exampleWeb 2 Later
           (skipn 10 scheduleXY) failedFetchState).
  vm_compute. reflexivity.
Defined.

(** ** Edge cases and accounting of the scheduler *)

Section SchedulerMore.

Variable unicodeLower : string -> string.
Variable http_Get : string -> Response + error.
Variable maxDepth : Z.

Local Abbreviation run2 := (V2.run unicodeLower http_Get maxDepth).
Local Abbreviation step2 := (V2.step unicodeLower http_Get maxDepth).

Lemma lookup_singleton_goroutine (g0 : Goroutine) (g : nat) (st : Goroutine) :
  [g0] !! g = Some st -> g = 0%nat /\ st = g0.
Proof. destruct g as [|g]; simpl; [intros [= <-]; auto | discriminate]. Qed.

(** With no seed the loop is never entered and the seed goroutine is never
    received from. *)
Lemma empty_seeds_run (r : Revision) (sched : list Choice) (s : State) :
  run r unicodeLower http_Get maxDepth sched (init []) = Some s ->
  res s = [] /\ goroutines s = [GSend []] /\ n s = 0 /\
  (pc s = LoopHead \/ pc s = Returned).
Proof.
  set (E := fun s : State =>
              res s = [] /\ goroutines s = [GSend []] /\ n s = 0 /\
              (pc s = LoopHead \/ pc s = Returned)).
  assert (Hi : E (init [])) by (unfold E; simpl; auto).
  destruct r; simpl; intros H.
  - eapply (V1_run_invariant unicodeLower http_Get maxDepth E); [|exact Hi|exact H].
    clear. intros s s' (Hr & Hg & Hn & Hpc) _ Ht. unfold E.
    destruct Ht; simpl;
      try (rewrite Hg in *;
           match goal with
           | H : [_] !! _ = Some _ |- _ =>
               apply lookup_singleton_goroutine in H as [_ H]; discriminate
           end);
      try (destruct Hpc; congruence); try lia.
    repeat split; auto.
  - eapply (V2_run_invariant unicodeLower http_Get maxDepth E); [|exact Hi|exact H].
    clear. intros s s' (Hr & Hg & Hn & Hpc) _ Ht. unfold E.
    destruct Ht; simpl;
      try (rewrite Hg in *;
           match goal with
           | H : [_] !! _ = Some _ |- _ =>
               apply lookup_singleton_goroutine in H as [_ H]; discriminate
           end);
      try (destruct Hpc; congruence); try lia.
    repeat split; auto.
Qed.

(** X8. [crawler] on an empty seed list, in either revision: it can return
    at once, with an empty result, and whatever the schedule the result stays
    empty and the seed goroutine stays where it was started, at its send of
    the (empty) seed batch, which nobody receives. *)
Theorem crawler_without_seeds (r : Revision) (sched : list Choice) (s : State) :
  run r unicodeLower http_Get maxDepth sched (init []) = Some s ->
  res s = [] /\ goroutines s = [GSend []] /\
  crawler r unicodeLower http_Get maxDepth [Main] [] = Some [].
Proof.
  intros H. apply empty_seeds_run in H as (Hr & Hg & _).
  repeat split; try assumption. destruct r; reflexivity.
Qed.

(** The number of goroutines against the recorded links. *)
Lemma V2_workers_step (s s' : State) :
  List.length (goroutines s) = S (List.length (expanded maxDepth (res s))) ->
  V2.Trans unicodeLower http_Get maxDepth s s' ->
  List.length (goroutines s') = S (List.length (expanded maxDepth (res s'))).
Proof.
  intros Hw Ht. destruct Ht; simpl; try rewrite length_insert; try exact Hw.
  unfold V2.visit. destruct (isVisited _ _); simpl; [exact Hw|].
  unfold expanded in *.
  destruct (depth link =? maxDepth) eqn:E; simpl;
    rewrite List.filter_app, !length_app; simpl; rewrite E; simpl; lia.
Qed.

Lemma V1_workers_step (s s' : State) :
  List.length (goroutines s) = S (List.length (res s)) ->
  V1.Trans unicodeLower http_Get maxDepth s s' ->
  List.length (goroutines s') = S (List.length (res s')).
Proof.
  intros Hw Ht. destruct Ht; simpl; try rewrite length_insert; try exact Hw.
  unfold V1.visit. destruct (isVisited _ _); simpl; [exact Hw|].
  destruct (depth link =? wrap (maxDepth + 1)); simpl; [exact Hw|].
  rewrite !length_app. simpl. lia.
Qed.

(** *** Which url a worker fetches *)

Lemma workedOn_app (r : Revision) (a b : list Link) :
  workedOn r maxDepth (a ++ b) = workedOn r maxDepth a ++ workedOn r maxDepth b.
Proof. destruct r; simpl; [reflexivity|]. apply List.filter_app. Qed.

Lemma workedOn_sub (r : Revision) (ls : list Link) (l : Link) :
  In l (workedOn r maxDepth ls) -> In l ls.
Proof.
  destruct r; simpl; [auto|]. unfold expanded. rewrite List.filter_In. tauto.
Qed.

Lemma toFetch_insert (gs : list Goroutine) : forall (g : nat) (old st : Goroutine),
  gs !! g = Some old -> fetchUrl st = [] ->
  exists a b, toFetch gs = a ++ fetchUrl old ++ b /\ toFetch (<[g := st]> gs) = a ++ b.
Proof.
  induction gs as [|x gs IH]; intros [|g] old st Hg Hst; simpl in Hg; try discriminate.
  - injection Hg as ->. exists [], (toFetch gs). simpl. rewrite Hst. auto.
  - destruct (IH g old st Hg Hst) as (a & b & E1 & E2).
    exists (fetchUrl x ++ a), b. simpl. unfold toFetch in *.
    rewrite E1, E2, <- !app_assoc. auto.
Qed.

Lemma fetchedBy_toFetch (c : Choice) (s : State) (u : string) :
  In u (fetchedBy c s) -> In u (toFetch (goroutines s)).
Proof.
  destruct c as [|g|g]; simpl; try contradiction.
  destruct (goroutines s !! g) as [st|] eqn:Hg; [|contradiction].
  intros Hu. unfold toFetch. apply in_flat_map. exists st. split; [|exact Hu].
  apply list_elem_of_In. eapply list_elem_of_lookup_2. exact Hg.
Qed.

(** A step that leaves the goroutines alone and only adds to the result. *)
Lemma fetchStep_keep (r : Revision) (s s' : State) (ext : list Link) :
  fetchInv r maxDepth s ->
  goroutines s' = goroutines s -> res s' = res s ++ ext ->
  (forall u, In u (map url (res s')) -> isVisited (visited s') u = true) ->
  fetchStep r maxDepth s s'.
Proof.
  intros (Hn & Hs & Hv) Eg Er Hv'. unfold fetchStep, fetchInv. rewrite Eg, Er.
  repeat split; eauto.
  - intros u Hu. rewrite workedOn_app, map_app. apply in_or_app. left. auto.
  - rewrite <- Er. exact Hv'.
Qed.

Lemma fetchStep_same (r : Revision) (s s' : State) :
  fetchInv r maxDepth s ->
  goroutines s' = goroutines s -> res s' = res s -> visited s' = visited s ->
  fetchStep r maxDepth s s'.
Proof.
  intros Hi Eg Er Ev. apply (fetchStep_keep r s s' []); try assumption.
  - rewrite app_nil_r. exact Er.
  - rewrite Er, Ev. destruct Hi as (_ & _ & Hv). exact Hv.
Qed.

(** A goroutine moves on, and not to a [getUrl] of its own. *)
Lemma fetchStep_insert (r : Revision) (s s' : State) (g : nat) (old st : Goroutine) :
  fetchInv r maxDepth s ->
  goroutines s !! g = Some old -> fetchUrl st = [] ->
  goroutines s' = <[g := st]> (goroutines s) ->
  res s' = res s -> visited s' = visited s ->
  fetchStep r maxDepth s s'.
Proof.
  intros (Hn & Hs & Hv) Hg Hst Eg Er Ev.
  destruct (toFetch_insert (goroutines s) g old st Hg Hst) as (a & b & E1 & E2).
  assert (Hsub : forall u, In u (toFetch (goroutines s')) ->
                           In u (toFetch (goroutines s))).
  { intros u. rewrite Eg, E1, E2. rewrite !in_app_iff. tauto. }
  unfold fetchStep, fetchInv. rewrite Er, Ev. repeat split; auto.
  - rewrite Eg, E2. rewrite E1 in Hn.
    apply NoDup_app in Hn as (Ha & Hab & Hb).
    apply NoDup_app in Hb as (_ & _ & Hb).
    apply NoDup_app. repeat split; [exact Ha | | exact Hb].
    intros u Hu Hub. apply (Hab u Hu). apply elem_of_app. right. exact Hub.
  - exists []. rewrite app_nil_r. reflexivity.
Qed.

(** [crawler] records a link that was not visited and starts its worker. *)
Lemma fetchStep_spawn (r : Revision) (s s' : State) (link : Link) :
  fetchInv r maxDepth s ->
  isVisited (visited s) (url link) = false ->
  visited s' = <[url link := true]> (visited s) ->
  res s' = res s ++ [link] ->
  goroutines s' = goroutines s ++ [GFetch link] ->
  In link (workedOn r maxDepth [link]) ->
  fetchStep r maxDepth s s'.
Proof.
  intros (Hn & Hs & Hv) Hfresh Ev Er Eg Hw.
  assert (Hnew : ~ In (url link) (map url (res s))).
  { intros Hin. apply Hv in Hin. congruence. }
  assert (Et : toFetch (goroutines s') = toFetch (goroutines s) ++ [url link]).
  { rewrite Eg. unfold toFetch. rewrite flat_map_app. reflexivity. }
  unfold fetchStep, fetchInv. rewrite Et, Er, Ev. repeat split.
  - apply NoDup_app. repeat split; [exact Hn | | apply NoDup_singleton].
    intros u Hu ->%list_elem_of_singleton. apply Hnew.
    apply in_map_iff. apply list_elem_of_In, Hs, in_map_iff in Hu as (l & El & Hl).
    exists l. split; [exact El|]. eapply workedOn_sub. exact Hl.
  - intros u Hu. rewrite workedOn_app, map_app. apply in_app_or in Hu as [Hu | [<- | []]].
    + apply in_or_app. left. auto.
    + apply in_or_app. right. apply in_map. exact Hw.
  - intros u Hu. rewrite isVisited_insert. destruct (decide (url link = u)); [reflexivity|].
    rewrite map_app in Hu. apply in_app_or in Hu as [Hu | [Hu | []]]; [auto | contradiction].
  - intros u Hu. apply in_app_or in Hu as [Hu | [<- | []]]; [left; exact Hu | right; exact Hnew].
  - eauto.
Qed.

(** [crawler] marks a link that was not visited and starts no worker. *)
Lemma fetchStep_mark (r : Revision) (s s' : State) (link : Link) (ext : list Link) :
  fetchInv r maxDepth s ->
  visited s' = <[url link := true]> (visited s) ->
  res s' = res s ++ ext -> (ext = [] \/ ext = [link]) ->
  goroutines s' = goroutines s ->
  fetchStep r maxDepth s s'.
Proof.
  intros Hi Ev Er Hext Eg. apply (fetchStep_keep r s s' ext); try assumption.
  destruct Hi as (_ & _ & Hv).
  intros u Hu. rewrite Ev, isVisited_insert.
  destruct (decide (url link = u)); [reflexivity|].
  rewrite Er, map_app in Hu. apply in_app_or in Hu as [Hu | Hu]; [auto|].
  destruct Hext as [-> | ->]; simpl in Hu; [contradiction|].
  destruct Hu as [Hu | []]. contradiction.
Qed.

Lemma V2_fetchStep (s s' : State) :
  fetchInv Later maxDepth s ->
  V2.Trans unicodeLower http_Get maxDepth s s' -> fetchStep Later maxDepth s s'.
Proof.
  intros Hi Ht.
  destruct Ht;
    try (apply fetchStep_same; [exact Hi | reflexivity ..]);
    try (eapply fetchStep_insert;
         [exact Hi | eassumption | | reflexivity | reflexivity | reflexivity];
         reflexivity).
  unfold V2.visit. destruct (isVisited _ _) eqn:Hv;
    [apply fetchStep_same; [exact Hi | reflexivity ..]|].
  destruct (depth link =? maxDepth) eqn:E.
  - apply (fetchStep_mark Later s _ link [link]); auto.
  - apply (fetchStep_spawn Later s _ link); auto.
    simpl. rewrite E. left. reflexivity.
Qed.

Lemma V1_fetchStep (s s' : State) :
  fetchInv Earlier maxDepth s ->
  V1.Trans unicodeLower http_Get maxDepth s s' -> fetchStep Earlier maxDepth s s'.
Proof.
  intros Hi Ht.
  destruct Ht;
    try (apply fetchStep_same; [exact Hi | reflexivity ..]);
    try (eapply fetchStep_insert;
         [exact Hi | eassumption | | reflexivity | reflexivity | reflexivity];
         reflexivity).
  unfold V1.visit. destruct (isVisited _ _) eqn:Hv;
    [apply fetchStep_same; [exact Hi | reflexivity ..]|].
  destruct (depth link =? wrap (maxDepth + 1)) eqn:E.
  - apply (fetchStep_mark Earlier s _ link []); auto. simpl. rewrite app_nil_r. reflexivity.
  - apply (fetchStep_spawn Earlier s _ link); auto. left. reflexivity.
Qed.

Lemma step_fetchStep (r : Revision) (c : Choice) (s s' : State) :
  fetchInv r maxDepth s ->
  step r unicodeLower http_Get maxDepth c s = Some s' -> fetchStep r maxDepth s s'.
Proof.
  intros Hi Hc. destruct r; simpl in Hc.
  - apply V1_step_Trans in Hc as [Ht _]. apply V1_fetchStep; assumption.
  - apply V2_step_Trans in Hc as [Ht _]. apply V2_fetchStep; assumption.
Qed.

(** The goroutine that calls [getUrl] moves on to an operation that is not
    another [getUrl]. *)
Lemma step_fetch (r : Revision) (g : nat) (link : Link) (s s' : State) :
  goroutines s !! g = Some (GFetch link) ->
  step r unicodeLower http_Get maxDepth (Go g) s = Some s' ->
  exists st, fetchUrl st = [] /\ goroutines s' = <[g := st]> (goroutines s).
Proof.
  intros Hg Hc. pose proof (getUrl_results http_Get (url link)) as Hr.
  destruct r; simpl in Hc; [unfold V1.step, V1.goStep in Hc | unfold V2.step, V2.goStep in Hc];
    destruct (panicked s); try discriminate; rewrite Hg in Hc;
    [cbn [V1.worker] in Hc | cbn [V2.worker] in Hc];
    destruct (getUrl http_Get (url link)) as [[resp err] lg]; simpl in Hr;
    destruct (http_Get (url link)); injection Hr as -> ->; injection Hc as <-;
    eexists; (split; [|reflexivity]); reflexivity.
Qed.

Lemma run_cons (r : Revision) (c : Choice) (sched : list Choice) (s : State) :
  run r unicodeLower http_Get maxDepth (c :: sched) s
  = match step r unicodeLower http_Get maxDepth c s with
    | Some s' => run r unicodeLower http_Get maxDepth sched s'
    | None => None
    end.
Proof. destruct r; reflexivity. Qed.

(** No url is fetched twice, and a url that is fetched belongs to a worker
    waiting at its [getUrl] or to a link not recorded yet. *)
Lemma fetches_NoDup (r : Revision) (sched : list Choice) : forall s,
  fetchInv r maxDepth s ->
  NoDup (fetches r unicodeLower http_Get maxDepth sched s) /\
  (forall u, In u (fetches r unicodeLower http_Get maxDepth sched s) ->
             In u (toFetch (goroutines s)) \/ ~ In u (map url (res s))).
Proof.
  induction sched as [|c sched IH]; intros s Hi; simpl.
  - split; [apply NoDup_nil_2 | intros u []].
  - destruct (step r unicodeLower http_Get maxDepth c s) as [s1|] eqn:Hc;
      [|split; [apply NoDup_nil_2 | intros u []]].
    destruct (step_fetchStep r c s s1 Hi Hc) as (Hi1 & Hback & ext & Er).
    destruct (IH s1 Hi1) as (Hn1 & He1).
    assert (Hlater : forall u, In u (fetches r unicodeLower http_Get maxDepth sched s1) ->
                               In u (toFetch (goroutines s)) \/ ~ In u (map url (res s))).
    { intros u Hu. destruct (He1 u Hu) as [Hin | Hout]; [apply Hback; exact Hin|].
      right. intros Hin. apply Hout. rewrite Er, map_app. apply in_or_app. left. exact Hin. }
    split.
    + apply NoDup_app. repeat split; [| |exact Hn1].
      * destruct c as [|g|g]; simpl; try apply NoDup_nil_2.
        destruct (goroutines s !! g) as [[]|]; simpl;
          try apply NoDup_nil_2; apply NoDup_singleton.
      * intros u Hu Hu1. apply list_elem_of_In in Hu, Hu1.
        destruct c as [|g|g]; simpl in Hu; try contradiction.
        destruct (goroutines s !! g) as [[link| | | | |]|] eqn:Hg; simpl in Hu;
          try contradiction.
        destruct Hu as [<- | []].
        destruct (step_fetch r g link s s1 Hg Hc) as (st & Hst & Eg).
        destruct Hi as (Hn & Hs & _).
        destruct (toFetch_insert (goroutines s) g (GFetch link) st Hg Hst)
          as (a & b & E1 & E2).
        assert (Hres : In (url link) (map url (res s))).
        { apply in_map_iff. destruct (in_map_iff url (workedOn r maxDepth (res s)) (url link))
            as [Hw _].
          destruct Hw as (l & El & Hl).
          - apply Hs. rewrite E1. apply in_or_app. right. left. reflexivity.
          - exists l. split; [exact El|]. eapply workedOn_sub. exact Hl. }
        destruct (He1 _ Hu1) as [Hin | Hout].
        -- rewrite Eg, E2 in Hin. rewrite E1 in Hn. simpl in Hn.
           apply NoDup_app in Hn as (_ & Hab & Hb).
           apply NoDup_cons in Hb as [Hnb _].
           apply in_app_or in Hin as [Hin | Hin].
           ++ apply (Hab (url link)); [apply list_elem_of_In; exact Hin|].
              apply elem_of_cons. left. reflexivity.
           ++ apply Hnb. apply list_elem_of_In. exact Hin.
        -- apply Hout. rewrite Er, map_app. apply in_or_app. left. exact Hres.
    + intros u Hu. apply in_app_or in Hu as [Hu | Hu]; [|apply Hlater; exact Hu].
      left. eapply fetchedBy_toFetch. exact Hu.
Qed.

(** Every url that is fetched is the url of a recorded link for which a
    worker was started. *)
Lemma fetches_recorded (r : Revision) (sched : list Choice) : forall s s',
  fetchInv r maxDepth s ->
  run r unicodeLower http_Get maxDepth sched s = Some s' ->
  forall u, In u (fetches r unicodeLower http_Get maxDepth sched s) ->
            In u (map url (workedOn r maxDepth (res s'))).
Proof.
  induction sched as [|c sched IH]; intros s s' Hi H u Hu; simpl in Hu; [contradiction|].
  rewrite run_cons in H.
  destruct (step r unicodeLower http_Get maxDepth c s) as [s1|] eqn:Hc; [|discriminate].
  destruct (step_fetchStep r c s s1 Hi Hc) as (Hi1 & _ & ext & Er).
  apply in_app_or in Hu as [Hu | Hu]; [|eapply IH; eauto].
  assert (Hpre : exists ext', res s' = res s1 ++ ext').
  { destruct r; simpl in H; [eapply V1_res_prefix | eapply V2_res_prefix]; exact H. }
  destruct Hpre as [ext' Er'].
  rewrite Er', Er, !workedOn_app, !map_app. apply in_or_app. left. apply in_or_app. left.
  destruct Hi as (_ & Hs & _). apply Hs. eapply fetchedBy_toFetch. exact Hu.
Qed.

Lemma fetchInv_init (r : Revision) (urls : list string) : fetchInv r maxDepth (init urls).
Proof.
  unfold fetchInv. simpl. repeat split; [apply NoDup_nil_2 | intros u [] |].
  destruct r; intros u [].
Qed.

(** X9. Besides the seed goroutine, the later revision has started exactly
    one worker per recorded link whose depth is not [maxDepth], and the
    earlier revision exactly one per recorded link; no two recorded links
    share a url; and no url is fetched twice in a crawl: the urls [getUrl]
    is called with along the schedule are pairwise distinct, each the url of
    a recorded link for which a worker was started. *)
Theorem crawler_one_worker_per_expanded_link
    (r : Revision) (urls : list string) (sched : list Choice) (s : State) :
  run r unicodeLower http_Get maxDepth sched (init urls) = Some s ->
  List.length (goroutines s) = S (List.length (workedOn r maxDepth (res s))) /\
  NoDup (map url (res s)) /\
  NoDup (fetches r unicodeLower http_Get maxDepth sched (init urls)) /\
  (forall u, In u (fetches r unicodeLower http_Get maxDepth sched (init urls)) ->
             In u (map url (workedOn r maxDepth (res s)))).
Proof.
  intros H. split; [|split; [|split]].
  - destruct r; simpl in H.
    + refine (V1_run_invariant unicodeLower http_Get maxDepth
                (fun s => List.length (goroutines s) = S (List.length (res s)))
                _ sched (init urls) s eq_refl H).
      intros s1 s2 H1 _ Ht. eapply V1_workers_step; eauto.
    + refine (V2_run_invariant unicodeLower http_Get maxDepth
                (fun s => List.length (goroutines s)
                          = S (List.length (expanded maxDepth (res s))))
                _ sched (init urls) s eq_refl H).
      intros s1 s2 H1 _ Ht. eapply V2_workers_step; eauto.
  - destruct r; simpl in H.
    + apply (V1_dedupInv_run unicodeLower http_Get maxDepth sched [] (init urls) s
               (dedupInv_init urls) H).
    + apply (V2_dedupInv_run unicodeLower http_Get maxDepth sched [] (init urls) s
               (dedupInv_init urls) H).
  - apply fetches_NoDup, fetchInv_init.
  - apply (fetches_recorded r sched (init urls) s (fetchInv_init r urls) H).
Qed.

(** X10. The later revision never panics: whatever the seeds, the web and
    the schedule, no run reaches a panic. *)
Theorem later_revision_never_panics (urls : list string) (sched : list Choice)
    (s : State) :
  run2 sched (init urls) = Some s -> panicked s = false.
Proof.
  intros H. eapply V2_no_panic; [|exact H]. reflexivity.
Qed.

(** The later revision marks a url visited exactly when it records a link
    with that url. *)
Lemma V2_visited_is_result_step (s s' : State) :
  (forall u, isVisited (visited s) u = true <-> In u (map url (res s))) ->
  V2.Trans unicodeLower http_Get maxDepth s s' ->
  (forall u, isVisited (visited s') u = true <-> In u (map url (res s'))).
Proof.
  intros Hv Ht. destruct Ht; simpl; try exact Hv.
  unfold V2.visit. destruct (isVisited (visited s) (url link)) eqn:E; simpl;
    [exact Hv|].
  assert (G : forall u,
             isVisited (<[url link := true]> (visited s)) u = true
             <-> In u (map url (res s ++ [link]))).
  { intros u. rewrite isVisited_insert, map_app, in_app_iff. simpl.
    destruct (decide (url link = u)) as [-> | Hne].
    - split; auto.
    - rewrite Hv. split; [auto | intros [Hi | [Hi | []]]; [exact Hi | contradiction]]. }
  destruct (depth link =? maxDepth); exact G.
Qed.

(** X11. Later revision: at every point of a crawl the visited set is
    exactly the set of urls of the links recorded so far. *)
Theorem later_revision_visited_is_result (urls : list string) (sched : list Choice)
    (s : State) (u : string) :
  run2 sched (init urls) = Some s ->
  isVisited (visited s) u = true <-> In u (map url (res s)).
Proof.
  intros H. revert u.
  eapply (V2_run_invariant unicodeLower http_Get maxDepth
            (fun s => forall u, isVisited (visited s) u = true
                                <-> In u (map url (res s)))); [| |exact H].
  - intros s1 s2 H1 _ Ht. eapply V2_visited_is_result_step; eauto.
  - intros u. simpl. unfold isVisited. rewrite lookup_empty. simpl.
    split; [discriminate | intros []].
Qed.

End SchedulerMore.

Lemma crawler_without_seeds_witness :
  res (init []) = [] /\ goroutines (init []) = [GSend []] /\
  crawler Earlier noUnicode exampleWeb 3 [Main] [] = Some [].
Proof.
  apply (crawler_without_seeds noUnicode exampleWeb 3 Earlier [] (init [])).
  reflexivity.
Defined.

Lemma crawler_one_worker_per_expanded_link_witness :
  List.length (goroutines raceState)
  = S (List.length (workedOn Later 3 (res raceState))) /\
  NoDup (map url (res raceState)) /\
  NoDup (fetches Later noUnicode raceWeb 3 scheduleBFirst (init ["http://x/"%string])) /\
  (forall u,
      In u (fetches Later noUnicode raceWeb 3 scheduleBFirst (init ["http://x/"%string])) ->
      In u (map url (workedOn Later 3 (res raceState)))).
Proof.
  apply (crawler_one_worker_per_expanded_link noUnicode raceWeb 3 Later
           ["http://x/"%string] scheduleBFirst raceState).
  vm_compute. reflexivity.
Defined.

Lemma later_revision_never_panics_witness : panicked failedFetchState = false.
Proof.
  apply (later_revision_never_panics noUnicode exampleWeb 2 ["http://x/"%string]
           beforeFailedFetch failedFetchState).
  vm_compute. reflexivity.
Defined.

Lemma later_revision_visited_is_result_witness :
  isVisited (visited failedFetchState) "http://y/" = true
  <-> In "http://y/"%string (map url (res failedFetchState)).
Proof.
  apply (later_revision_visited_is_result noUnicode exampleWeb 2 ["http://x/"%string]
           beforeFailedFetch failedFetchState "http://y/").
  vm_compute. reflexivity.
Defined.

(** ** How a crawl of the later revision ends *)

Section Ending.

Variable unicodeLower : string -> string.
Variable http_Get : string -> Response + error.
Variable maxDepth : Z.
Hypothesis maxDepth_int : 0 <= maxDepth <= maxInt.

Local Abbreviation run2 := (V2.run unicodeLower http_Get maxDepth).
Local Abbreviation step2 := (V2.step unicodeLower http_Get maxDepth).
Local Abbreviation stepsLeft' := (stepsLeft unicodeLower http_Get maxDepth).

(** [crawler] returns only from a loop head with [n <= 0], and [n] does not
    change afterwards. *)
Lemma V2_returned_counter (urls : list string) (sched : list Choice) (s : State) :
  run2 sched (init urls) = Some s -> pc s = Returned -> n s <= 0.
Proof.
  intros H.
  refine (V2_run_invariant unicodeLower http_Get maxDepth
            (fun s => pc s = Returned -> n s <= 0) _ sched (init urls) s _ H).
  - clear. intros s s' Hi _ Ht. destruct Ht; simpl; try discriminate; try exact Hi.
    + intros _. assumption.
    + rewrite V2_visit_pc. discriminate.
  - simpl. discriminate.
Qed.

Lemma live_zero_all_exit (gs : list Goroutine) :
  sum_list_with live gs = 0%nat ->
  forall g st, gs !! g = Some st -> st = GExit.
Proof.
  induction gs as [|x gs IH]; intros H [|g] st Hg; simpl in *; try discriminate.
  - injection Hg as <-. destruct x; simpl in H; try lia. reflexivity.
  - apply (IH ltac:(lia) g st Hg).
Qed.

Lemma holdsToken_le_live (gs : list Goroutine) :
  (sum_list_with holdsToken gs <= sum_list_with live gs)%nat.
Proof. induction gs as [|g gs IH]; simpl; [lia|]. destruct g; simpl; lia. Qed.

(** X12. Later revision, one seed, [0 <= maxDepth]: every crawl terminates
    and ends cleanly.  No run is longer than the bound computed from the web
    at the start; as long as [crawler] has not returned some step can be
    taken; and once it has returned, unless [2 ^ 63] goroutines or more are
    still running (so that [n] has wrapped around), [n] is 0, every goroutine
    has returned, [requestTokens] is empty and nothing can run any more. *)
Theorem later_revision_one_seed_terminates_cleanly
    (seed : string) (sched : list Choice) (s : State) :
  run2 sched (init [seed]) = Some s ->
  (List.length sched <= stepsLeft' (init [seed]))%nat /\
  (pc s <> Returned -> exists c s', step2 c s = Some s') /\
  (pc s = Returned -> Z.of_nat (count live s) <= maxInt ->
   n s = 0 /\ count live s = 0%nat /\ requestTokens s = 0%nat /\
   forall c, step2 c s = None).
Proof.
  intros H.
  pose proof (V2_run_bounded unicodeLower http_Get maxDepth maxDepth_int sched
                (init [seed]) s (depthInv2_init maxDepth maxDepth_int [seed]) H) as Hb.
  assert (Hn : pendingInv 1 s).
  { apply (V2_pendingInv_run unicodeLower http_Get maxDepth [seed] sched s);
      [unfold maxInt; simpl; lia | exact H]. }
  pose proof (tokensHeld_run unicodeLower http_Get maxDepth Later [seed] sched s H)
    as [Htok Hcap].
  assert (Hp : panicked s = false) by (eapply V2_no_panic; [|exact H]; reflexivity).
  split; [lia|]. split.
  - intros Hpc. apply V2_progress; try assumption. split; assumption.
  - intros Hpc Hsmall.
    pose proof (V2_returned_counter [seed] sched s H Hpc) as Hle.
    unfold pendingInv in Hn. rewrite Hpc in Hn. simpl in Hn.
    unfold maxInt in *. rewrite wrap_small in Hn by lia.
    assert (Hlive : count live s = 0%nat) by lia.
    pose proof (holdsToken_le_live (goroutines s)) as Hh. unfold count in *.
    repeat split; try lia.
    intros c. unfold V2.step. rewrite Hp. destruct c as [|g|g].
    + unfold V2.mainStep. rewrite Hpc. reflexivity.
    + unfold V2.receiveStep. rewrite Hpc. reflexivity.
    + unfold V2.goStep. destruct (goroutines s !! g) as [st|] eqn:Hg; [|reflexivity].
      rewrite (live_zero_all_exit _ Hlive g st Hg). reflexivity.
Qed.

(** Later revision, two seeds or more: a crawl that can go no further stands
    at the receive with every goroutine returned. *)
Lemma V2_several_seeds_stuck (urls : list string) (sched : list Choice) (s : State) :
  (2 <= List.length urls)%nat ->
  run2 sched (init urls) = Some s ->
  Z.of_nat (List.length (goroutines s)) + Z.of_nat (List.length urls) <= maxInt ->
  (forall c, step2 c s = None) ->
  pc s = LoopHead /\ 0 < n s /\
  forall g st, goroutines s !! g = Some st -> st = GExit.
Proof.
  intros Hlen H Hsmall Hstuck.
  pose proof (V2_several_seeds_never_return unicodeLower http_Get maxDepth urls sched
                Hlen s H Hsmall) as Hpc.
  assert (Hp : panicked s = false) by (eapply V2_no_panic; [|exact H]; reflexivity).
  pose proof (tokensHeld_run unicodeLower http_Get maxDepth Later urls sched s H) as Htok.
  assert (Hn : pendingInv (List.length urls) s).
  { apply (V2_pendingInv_run unicodeLower http_Get maxDepth urls sched s);
      [unfold maxInt in *; lia | exact H]. }
  pose proof (live_le_length (goroutines s)) as Hl.
  destruct (pc s) as [|[|link rest]|] eqn:Epc; try contradiction.
  2, 3: specialize (Hstuck Main); unfold V2.step, V2.mainStep in Hstuck;
        rewrite Hp, Epc in Hstuck; discriminate.
  unfold pendingInv, count in Hn. rewrite Epc in Hn. simpl in Hn.
  unfold maxInt in *. rewrite wrap_small in Hn by lia.
  split; [reflexivity|]. split; [lia|].
  apply live_zero_all_exit.
  destruct (sum_list_with live (goroutines s)) as [|k] eqn:El; [reflexivity|].
  exfalso.
  destruct (V2_live_can_step unicodeLower http_Get maxDepth s Htok Hp Epc) as (c & s' & Hc).
  - apply Z.gtb_lt. lia.
  - unfold count. lia.
  - rewrite Hstuck in Hc. discriminate.
Qed.

End Ending.

Lemma later_revision_one_seed_terminates_cleanly_witness :
  (List.length scheduleSelf
   <= stepsLeft noUnicode selfWeb 64 (init ["http://x/"%string]))%nat /\
  (pc selfState <> Returned ->
   exists c s', V2.step noUnicode selfWeb 64 c selfState = Some s') /\
  (pc selfState = Returned -> Z.of_nat (count live selfState) <= maxInt ->
   n selfState = 0 /\ count live selfState = 0%nat /\
   requestTokens selfState = 0%nat /\
   forall c, V2.step noUnicode selfWeb 64 c selfState = None).
Proof.
  apply (later_revision_one_seed_terminates_cleanly noUnicode selfWeb 64
           ltac:(unfold maxInt; lia) "http://x/" scheduleSelf selfState).
  vm_compute. reflexivity.
Defined.

(** X13. Later revision, two seeds or more, [0 <= maxDepth]: no run is
    longer than the bound computed at the start, and unless [n] has wrapped
    around (it counts the seeds and the goroutines started), [crawler] has not
    returned, under any schedule; a crawl that can go no further is blocked
    at its receive, [n] still positive and every goroutine returned. *)
Theorem later_revision_several_seeds_hang
    (unicodeLower : string -> string) (http_Get : string -> Response + error)
    (maxDepth : Z) (urls : list string) (sched : list Choice) (s : State) :
  0 <= maxDepth <= maxInt ->
  (2 <= List.length urls)%nat ->
  run Later unicodeLower http_Get maxDepth sched (init urls) = Some s ->
  (List.length sched <= stepsLeft unicodeLower http_Get maxDepth (init urls))%nat /\
  (Z.of_nat (List.length (goroutines s)) + Z.of_nat (List.length urls) <= maxInt ->
   pc s <> Returned /\
   crawler Later unicodeLower http_Get maxDepth sched urls = None /\
   ((forall c, V2.step unicodeLower http_Get maxDepth c s = None) ->
    pc s = LoopHead /\ 0 < n s /\
    forall g st, goroutines s !! g = Some st -> st = GExit)).
Proof.
  intros Hd Hlen H. simpl in H. split.
  - pose proof (V2_run_bounded unicodeLower http_Get maxDepth Hd sched (init urls) s
                  (depthInv2_init maxDepth Hd urls) H). lia.
  - intros Hsmall.
    pose proof (V2_several_seeds_never_return unicodeLower http_Get maxDepth urls
                  sched Hlen s H Hsmall) as Hpc.
    split; [exact Hpc|]. split.
    + simpl. unfold V2.crawler. rewrite H.
      destruct (pc s); [reflexivity | reflexivity | contradiction].
    + apply (V2_several_seeds_stuck unicodeLower http_Get maxDepth urls sched s);
        assumption.
Qed.

Lemma later_revision_several_seeds_hang_witness :
  (List.length [Receive 0; Main; Main; Main]%nat
   <= stepsLeft noUnicode exampleWeb 0 (init twoSeeds))%nat /\
  (Z.of_nat (List.length (goroutines twoSeedState)) + Z.of_nat (List.length twoSeeds)
   <= maxInt ->
   pc twoSeedState <> Returned /\
   crawler Later noUnicode exampleWeb 0 [Receive 0; Main; Main; Main]%nat twoSeeds
   = None /\
   ((forall c, V2.step noUnicode exampleWeb 0 c twoSeedState = None) ->
    pc twoSeedState = LoopHead /\ 0 < n twoSeedState /\
    forall g st, goroutines twoSeedState !! g = Some st -> st = GExit)).
Proof.
  apply (later_revision_several_seeds_hang noUnicode exampleWeb 0 twoSeeds
           [Receive 0; Main; Main; Main]%nat twoSeedState).
  - unfold maxInt. lia.
  - simpl. lia.
  - vm_compute. reflexivity.
Defined.

(** ** The seed link *)

Section SeedFirst.

Variable unicodeLower : string -> string.
Variable http_Get : string -> Response + error.
Variable maxDepth : Z.

Lemma seedFirst_init (u : string) : seedFirst u (init [u]).
Proof. left. unfold init, initialLinks, seedLink. simpl. auto. Qed.

Ltac no_such_goroutine Hg :=
  match goal with
  | H : goroutines _ !! _ = Some _ |- _ =>
      rewrite Hg in H; apply lookup_singleton_goroutine in H as [_ H]; discriminate
  end.

Lemma V2_visit_fresh (link : Link) (rest : list Link) (s : State) :
  isVisited (visited s) (url link) = false ->
  res (V2.visit maxDepth link rest s) = res s ++ [link].
Proof.
  intros Hv. unfold V2.visit. rewrite Hv.
  destruct (depth link =? maxDepth); reflexivity.
Qed.

Lemma V1_visit_fresh (link : Link) (rest : list Link) (s : State) :
  isVisited (visited s) (url link) = false ->
  depth link <> wrap (maxDepth + 1) ->
  res (V1.visit maxDepth link rest s) = res s ++ [link].
Proof.
  intros Hv Hd. unfold V1.visit. rewrite Hv.
  destruct (depth link =? wrap (maxDepth + 1)) eqn:E; [|reflexivity].
  apply Z.eqb_eq in E. contradiction.
Qed.

Lemma V2_seedFirst_step (u : string) (s s' : State) :
  seedFirst u s -> V2.Trans unicodeLower http_Get maxDepth s s' -> seedFirst u s'.
Proof.
  intros [(Hr & Hpc & Hn & Hg & Hv) | [(Hr & Hpc & Hg & Hv) | (tl & Hr)]] Ht.
  - destruct Ht; try congruence; try lia; try no_such_goroutine Hg.
    rewrite Hg in H1. apply lookup_singleton_goroutine in H1 as [-> [= ->]].
    right. left. simpl. rewrite Hg. auto.
  - destruct Ht; try congruence; try no_such_goroutine Hg.
    rewrite Hpc in H. injection H as <- <-.
    right. right. exists []. rewrite V2_visit_fresh, Hr; [reflexivity|].
    unfold isVisited. rewrite Hv, lookup_empty. reflexivity.
  - right. right. destruct Ht; simpl; eauto.
    destruct (V2_visit_res maxDepth link rest s) as [-> | ->]; rewrite Hr; simpl; eauto.
Qed.

Lemma V1_seedFirst_step (u : string) (s s' : State) :
  0 <= maxDepth <= maxInt ->
  seedFirst u s -> V1.Trans unicodeLower http_Get maxDepth s s' -> seedFirst u s'.
Proof.
  intros Hd [(Hr & Hpc & Hn & Hg & Hv) | [(Hr & Hpc & Hg & Hv) | (tl & Hr)]] Ht.
  - destruct Ht; try congruence; try lia; try no_such_goroutine Hg.
    rewrite Hg in H1. apply lookup_singleton_goroutine in H1 as [-> [= ->]].
    right. left. simpl. rewrite Hg. auto.
  - destruct Ht; try congruence; try no_such_goroutine Hg.
    rewrite Hpc in H. injection H as <- <-.
    right. right. exists []. rewrite V1_visit_fresh, Hr; [reflexivity| |].
    + unfold isVisited. rewrite Hv, lookup_empty. reflexivity.
    + simpl. intros E. unfold maxInt in Hd.
      destruct (Z.eq_dec maxDepth (2 ^ 63 - 1)) as [-> | Hne].
      * vm_compute in E. discriminate.
      * rewrite wrap_small in E; lia.
  - right. right. destruct Ht; simpl; eauto.
    destruct (V1_visit_res maxDepth link rest s) as [-> | ->]; rewrite Hr; simpl; eauto.
Qed.

(** X14. A crawl from one seed, in either revision with [0 <= maxDepth]:
    the sequence [crawler] returns begins with the seed link, whose text is
    the seed as given, whose url is the trimmed seed and whose depth is 0,
    whether or not that link would pass [Valid]. *)
Theorem crawler_result_starts_with_seed
    (r : Revision) (seed : string) (sched : list Choice) (result : list Link) :
  0 <= maxDepth <= maxInt ->
  crawler r unicodeLower http_Get maxDepth sched [seed] = Some result ->
  exists others, result = mkLink (strings.TrimSpace seed) seed 0 :: others.
Proof.
  intros Hd Hc.
  apply crawler_run in Hc as (s & Hs & Hpc & <-).
  assert (Hi : seedFirst seed s).
  { destruct r; simpl in Hs.
    - refine (V1_run_invariant unicodeLower http_Get maxDepth (seedFirst seed)
                _ sched (init [seed]) s (seedFirst_init seed) Hs).
      intros s1 s2 H1 _ Ht. eapply V1_seedFirst_step; eauto.
    - refine (V2_run_invariant unicodeLower http_Get maxDepth (seedFirst seed)
                _ sched (init [seed]) s (seedFirst_init seed) Hs).
      intros s1 s2 H1 _ Ht. eapply V2_seedFirst_step; eauto. }
  destruct Hi as [(_ & Hp & _) | [(_ & Hp & _) | (tl & Hr)]]; try congruence.
  exists tl. exact Hr.
Qed.

End SeedFirst.

Lemma crawler_result_starts_with_seed_witness :
  exists others,
    [seedX; linkY] = mkLink (strings.TrimSpace "http://x/") "http://x/" 0 :: others.
Proof.
  apply (crawler_result_starts_with_seed noUnicode exampleWeb 2 Later "http://x/"
           scheduleXY [seedX; linkY]).
  - unfold maxInt. lia.
  - vm_compute. reflexivity.
Defined.

(** ** The CSV writer *)

Lemma exited_snoc_called (tr : list OsEvent) (c : OsCall) (ok : bool) :
  exited (tr ++ [Called c ok]) = exited tr.
Proof. unfold exited. rewrite existsb_app. simpl. rewrite !orb_false_r. reflexivity. Qed.

Lemma exited_snoc_fatal (tr : list OsEvent) (c : OsCall) :
  exited (tr ++ [Called c false; Fatal]) = true.
Proof. unfold exited. rewrite existsb_app. simpl. apply orb_true_r. Qed.

Lemma calls_snoc_called (tr : list OsEvent) (c : OsCall) (ok : bool) :
  calls (tr ++ [Called c ok]) = S (calls tr).
Proof. unfold calls. rewrite List.filter_app, length_app. simpl. lia. Qed.

Lemma written_app (a b : list OsEvent) : written (a ++ b) = written a ++ written b.
Proof.
  induction a as [|e a IH]; simpl; [reflexivity|].
  destruct e as [[p|p|p|p data|p] [|]|]; simpl; rewrite IH; reflexivity.
Qed.

Lemma written_snoc_other (tr : list OsEvent) (c : OsCall) :
  (forall p data, c <> OsWrite p data) ->
  forall ok, written (tr ++ [Called c ok]) = written tr.
Proof.
  intros Hc ok. rewrite written_app.
  destruct c as [p|p|p|p data|p]; try (destruct ok; simpl; apply app_nil_r).
  exfalso. exact (Hc p data eq_refl).
Qed.

Section CsvFacts.

Variable fails : nat -> bool.

Lemma checked_exited (c : OsCall) (tr : list OsEvent) :
  exited tr = true -> checked fails c tr = tr.
Proof. unfold checked. intros ->. reflexivity. Qed.

Lemma writeToFile_exited (path txt : string) (tr : list OsEvent) :
  exited tr = true -> writeToFile fails path txt tr = tr.
Proof.
  intros H. unfold writeToFile. rewrite (checked_exited _ tr H).
  rewrite (checked_exited _ tr H). apply checked_exited. exact H.
Qed.

Lemma rows_exited (path : string) (links : list Link) (tr : list OsEvent) :
  exited tr = true ->
  fold_left (fun tr link => writeToFile fails path (csvRow link) tr) links tr = tr.
Proof.
  revert tr. induction links as [|l links IH]; intros tr H; simpl; [reflexivity|].
  rewrite (writeToFile_exited _ _ tr H). apply IH. exact H.
Qed.

Lemma checked_cases (c : OsCall) (tr : list OsEvent) :
  exited tr = false ->
  checked fails c tr = tr ++ [Called c true] \/
  checked fails c tr = tr ++ [Called c false; Fatal].
Proof. unfold checked. intros ->. destruct (fails (calls tr)); auto. Qed.

(** One [writeToFile]: its text is written as a whole, or nothing is written
    and the process has ended. *)
Lemma writeToFile_cases (path txt : string) (tr : list OsEvent) :
  exited tr = false ->
  written (writeToFile fails path txt tr) = written tr ++ [txt] \/
  (written (writeToFile fails path txt tr) = written tr /\
   exited (writeToFile fails path txt tr) = true).
Proof.
  intros H. unfold writeToFile.
  destruct (checked_cases (OsOpenFile path) tr H) as [-> | ->].
  - set (tr1 := tr ++ [Called (OsOpenFile path) true]).
    assert (H1 : exited tr1 = false) by (unfold tr1; rewrite exited_snoc_called; exact H).
    assert (W1 : written tr1 = written tr)
      by (unfold tr1; apply written_snoc_other; discriminate).
    destruct (checked_cases (OsWrite path txt) tr1 H1) as [-> | ->].
    + left. set (tr2 := tr1 ++ [Called (OsWrite path txt) true]).
      assert (H2 : exited tr2 = false)
        by (unfold tr2; rewrite exited_snoc_called; exact H1).
      assert (W2 : written tr2 = written tr ++ [txt])
        by (unfold tr2; rewrite written_app, W1; reflexivity).
      destruct (checked_cases (OsClose path) tr2 H2) as [-> | ->];
        rewrite written_app, W2; simpl; apply app_nil_r.
    + right. pose proof (exited_snoc_fatal tr1 (OsWrite path txt)) as E.
      rewrite (checked_exited _ _ E).
      split; [|exact E].
      rewrite written_app, W1. simpl. apply app_nil_r.
  - right. pose proof (exited_snoc_fatal tr (OsOpenFile path)) as E.
    rewrite !(checked_exited _ _ E).
    split; [|exact E].
    rewrite written_app. simpl. apply app_nil_r.
Qed.

Lemma rows_written (path : string) (links : list Link) : forall tr,
  exists j,
    written (fold_left (fun tr link => writeToFile fails path (csvRow link) tr) links tr)
    = written tr ++ firstn j (map csvRow links) /\
    (exited (fold_left (fun tr link => writeToFile fails path (csvRow link) tr) links tr)
     = false -> j = List.length links).
Proof.
  induction links as [|l links IH]; intros tr; simpl.
  - exists 0%nat. rewrite app_nil_r. auto.
  - destruct (exited tr) eqn:H.
    + rewrite (writeToFile_exited _ _ tr H), (rows_exited _ _ tr H).
      exists 0%nat. rewrite app_nil_r. split; [reflexivity | congruence].
    + destruct (writeToFile_cases path (csvRow l) tr H) as [W | [W E]].
      * destruct (IH (writeToFile fails path (csvRow l) tr)) as (j & Hj & Hx).
        exists (S j). rewrite Hj, W, <- app_assoc. simpl.
        split; [reflexivity | intros Hex; rewrite (Hx Hex); reflexivity].
      * rewrite (rows_exited _ _ _ E). exists 0%nat.
        rewrite W, app_nil_r. split; [reflexivity | congruence].
Qed.

(** X15. Whatever calls to [os] fail, the calls to [Write] that succeed
    during [writeLinksToCsv] (either revision) carry, in order and without a
    gap, the header and then the rows of the first links: a prefix of the
    file's lines; and unless [log.Fatal] was reached, it is all of them. *)
Theorem writeLinksToCsv_successful_writes_are_a_prefix
    (r : Revision) (outputPath : string) (links : list Link) :
  exists j,
    written (writeLinksToCsv fails r outputPath links [])
    = firstn j (csvHeader :: map csvRow links) /\
    (exited (writeLinksToCsv fails r outputPath links []) = false ->
     j = S (List.length links)).
Proof.
  unfold writeLinksToCsv.
  set (tr0 := match r with
              | Earlier => checked fails (OsRemoveAll outputPath) []
              | Later => unchecked fails (OsCreate outputPath)
                           (checked fails (OsRemoveAll outputPath) [])
              end).
  assert (W0 : written tr0 = []).
  { unfold tr0, unchecked, checked. change (exited []) with false. cbv iota.
    destruct r; destruct (fails (calls [])); simpl; reflexivity. }
  destruct (exited tr0) eqn:H0.
  - rewrite (writeToFile_exited _ _ tr0 H0), (rows_exited _ _ tr0 H0).
    exists 0%nat. rewrite W0. split; [reflexivity | congruence].
  - destruct (writeToFile_cases outputPath csvHeader tr0 H0) as [W | [W E]].
    + destruct (rows_written outputPath links (writeToFile fails outputPath csvHeader tr0))
        as (j & Hj & Hx).
      exists (S j). rewrite Hj, W, W0. simpl.
      split; [reflexivity | intros Hex; rewrite (Hx Hex); reflexivity].
    + rewrite (rows_exited _ _ _ E). exists 0%nat. rewrite W, W0.
      split; [reflexivity | congruence].
Qed.

End CsvFacts.

Lemma countByte_app (c : ascii) (a b : string) :
  countByte c (a ++ b) = (countByte c a + countByte c b)%nat.
Proof. induction a as [|x a IH]; simpl; [reflexivity|]. rewrite IH. lia. Qed.

Lemma countByte_replaceByte (old new : ascii) (s : string) :
  old <> new -> countByte old (replaceByte old new s) = 0%nat.
Proof.
  intros Hne. induction s as [|c s IH]; simpl; [reflexivity|]. rewrite IH.
  destruct (Ascii.eqb c old) eqn:E.
  - destruct (Ascii.eqb new old) eqn:E'; [|reflexivity].
    apply Ascii.eqb_eq in E'. congruence.
  - rewrite E. reflexivity.
Qed.

Lemma fmtInt_no_newline (z : Z) : countByte newline (strings.fmtInt z) = 0%nat.
Proof.
  assert (U : forall d, countByte newline (NilEmpty.string_of_uint d) = 0%nat)
    by (induction d; simpl; try assumption; reflexivity).
  assert (U0 : forall d, countByte newline (NilZero.string_of_uint d) = 0%nat)
    by (intros d; destruct d; try apply U; reflexivity).
  unfold strings.fmtInt, NilZero.string_of_int.
  destruct (Z.to_int z); simpl; rewrite U0; reflexivity.
Qed.

(** A row ends in a line feed; those of the text are replaced, those of the
    url are not. *)
Lemma csvRow_lines (l : Link) :
  countByte newline (csvRow l) = S (countByte newline (url l)).
Proof.
  unfold csvRow. rewrite !countByte_app, fmtInt_no_newline.
  rewrite countByte_replaceByte by (vm_compute; discriminate). simpl. lia.
Qed.

Lemma writeToFile_ok (fails : nat -> bool) (path txt : string) (tr : list OsEvent) :
  (forall k, fails k = false) -> exited tr = false ->
  exited (writeToFile fails path txt tr) = false /\
  written (writeToFile fails path txt tr) = written tr ++ [txt].
Proof.
  intros Hf H.
  assert (Hc : forall c t, exited t = false -> checked fails c t = t ++ [Called c true]).
  { intros c t Ht. unfold checked. rewrite Ht, Hf. reflexivity. }
  unfold writeToFile. rewrite (Hc _ tr H).
  rewrite (Hc (OsWrite path txt)) by (rewrite exited_snoc_called; exact H).
  rewrite (Hc (OsClose path)) by (rewrite !exited_snoc_called; exact H).
  rewrite !exited_snoc_called. split; [exact H|].
  rewrite !written_app. simpl. rewrite !app_nil_r. reflexivity.
Qed.

Lemma rows_ok (fails : nat -> bool) (path : string) (links : list Link) :
  (forall k, fails k = false) ->
  forall tr, exited tr = false ->
    exited (fold_left (fun tr link => writeToFile fails path (csvRow link) tr) links tr)
    = false /\
    written (fold_left (fun tr link => writeToFile fails path (csvRow link) tr) links tr)
    = written tr ++ map csvRow links.
Proof.
  intros Hf. induction links as [|l links IH]; intros tr H; simpl.
  - rewrite app_nil_r. auto.
  - destruct (writeToFile_ok fails path (csvRow l) tr Hf H) as [E W].
    destruct (IH _ E) as [E' W']. split; [exact E'|].
    rewrite W', W, <- app_assoc. reflexivity.
Qed.

(** X16. When no call to [os] fails, [writeLinksToCsv] of either revision
    does not reach [log.Fatal] and writes the header and then one row per
    link, in the order of the links, whatever the links are.  The line feeds
    of a text are replaced, those of a url are not: the data written has one
    line for the header, one per link, and one more for every line feed
    inside a url. *)
Theorem writeLinksToCsv_line_count
    (fails : nat -> bool) (r : Revision) (outputPath : string) (links : list Link) :
  (forall k, fails k = false) ->
  exited (writeLinksToCsv fails r outputPath links []) = false /\
  written (writeLinksToCsv fails r outputPath links [])
  = csvHeader :: map csvRow links /\
  sum_list_with (countByte newline) (written (writeLinksToCsv fails r outputPath links []))
  = (S (List.length links)
     + sum_list_with (fun l => countByte newline (url l)) links)%nat.
Proof.
  intros Hf. unfold writeLinksToCsv.
  set (tr0 := match r with
              | Earlier => checked fails (OsRemoveAll outputPath) []
              | Later => unchecked fails (OsCreate outputPath)
                           (checked fails (OsRemoveAll outputPath) [])
              end).
  assert (H0 : exited tr0 = false /\ written tr0 = []).
  { unfold tr0, unchecked, checked. change (exited []) with false. cbv iota.
    rewrite !Hf. destruct r; simpl; auto. }
  destruct H0 as [E0 W0].
  destruct (writeToFile_ok fails outputPath csvHeader tr0 Hf E0) as [E1 W1].
  destruct (rows_ok fails outputPath links Hf _ E1) as [E2 W2].
  split; [exact E2|]. rewrite W2, W1, W0. simpl app. split; [reflexivity|].
  assert (Hrows : sum_list_with (countByte newline) (map csvRow links)
                  = (List.length links
                     + sum_list_with (fun l => countByte newline (url l)) links)%nat).
  { clear. induction links as [|l links IH]; simpl; [reflexivity|].
    rewrite csvRow_lines, IH. lia. }
  change (sum_list_with (countByte newline) (csvHeader :: map csvRow links))
    with (countByte newline csvHeader
          + sum_list_with (countByte newline) (map csvRow links))%nat.
  rewrite Hrows. change (countByte newline csvHeader) with 1%nat. lia.
Qed.

Lemma writeLinksToCsv_line_count_witness :
  exited (writeLinksToCsv neverFails Later "output/output.csv" [seedX; linkTwoLines] [])
  = false /\
  written (writeLinksToCsv neverFails Later "output/output.csv" [seedX; linkTwoLines] [])
  = csvHeader :: map csvRow [seedX; linkTwoLines] /\
  sum_list_with (countByte newline)
    (written (writeLinksToCsv neverFails Later "output/output.csv"
                [seedX; linkTwoLines] []))
  = (S (List.length [seedX; linkTwoLines])
     + sum_list_with (fun l => countByte newline (url l)) [seedX; linkTwoLines])%nat.
Proof.
  apply (writeLinksToCsv_line_count neverFails Later "output/output.csv"
           [seedX; linkTwoLines]).
  reflexivity.
Defined.

(** The link with a line feed in its url takes two lines of the file. *)
Example writeLinksToCsv_url_with_line_feed :
  sum_list_with (countByte newline)
    (written (writeLinksToCsv neverFails Later "output/output.csv"
                [seedX; linkTwoLines] []))
  = 4%nat.
Proof. vm_compute. reflexivity. Qed.

(** ** [Link.String] *)

Lemma Link_String_panics_iff (maxAlloc : Z) (l : Link) :
  Link_String maxAlloc l = None
  <-> depth l < 0 \/ maxInt < depth l \/ maxAlloc < depth l.
Proof.
  unfold Link_String, Repeat.
  change (Z.of_nat (String.length (String (ascii_of_nat 9) ""))) with 1.
  cbv zeta. rewrite Z.mul_1_l.
  destruct (depth l <? 0) eqn:E1; simpl.
  - apply Z.ltb_lt in E1. split; auto.
  - apply Z.ltb_ge in E1. destruct (maxInt <? depth l) eqn:E2; simpl.
    + apply Z.ltb_lt in E2. split; auto.
    + apply Z.ltb_ge in E2. destruct (maxAlloc <? depth l) eqn:E3.
      * apply Z.ltb_lt in E3. split; auto.
      * apply Z.ltb_ge in E3. split; [discriminate | lia].
Qed.



(** A link deeper than the largest allocation: [Link.String] panics, far
    below the largest [int]. *)
Example Link_String_panics_on_deep_link :
  Link_String maxAlloc64 (mkLink "http://x/" "X" (2 ^ 48 + 1)) = None.
Proof. apply Link_String_panics_iff. right. right. simpl. unfold maxAlloc64. lia. Qed.

(** With a failure at the sixth call the earlier revision has written the
    header only. *)
Example writeLinksToCsv_sixth_call_fails :
  let tr := writeLinksToCsv sixthFails Earlier "output/output.csv"
              [seedX; linkY] [] in
  written tr = [csvHeader] /\ exited tr = true.
Proof. vm_compute. split; reflexivity. Qed.
